(** * jwt-auth-manager: refresh-token lifecycle and rate-limit engine

    A shallow embedding of the TypeScript sources
    (core/tokenGeneration, core/tokenVerification, core/securityChecks,
    core/tokenRefresh, utils/helper, storage/memoryStorage and
    security/rateLimiting) together with the properties the
    specification states about them.

    Conventions.
    - Dates and durations are integers (milliseconds since the epoch), as
      [Date.getTime()] gives them; JavaScript numbers are modelled by [Z].
    - An [async] function is a state transformer over the store it talks
      to; a rejected promise is the [Throw] result.
    - One call reads the clock once: every [Date.now()] / [new Date()] of a
      single atomic segment sees the same instant [e_now].
    - [crypto.randomUUID()] is an input of the call ([e_jti]). *)

From Stdlib Require Import Ascii String ZArith Lia.
From stdpp Require Import gmap strings list fin_maps pretty.

Open Scope Z_scope.

(** ** Errors and results *)

Inductive Error : Type :=
  | JwtMalformed
  | JwtSecretRequired
  | JwtKeyRequired
  | JwtInvalidSignature
  | JwtExpired
  | JwtBadExpiresIn
  | InvalidTokenType
  | InvalidOrExpiredAccessToken
  | InvalidOrExpiredRefreshToken
  | InvalidRefreshToken
  | ConcurrentUsageDetected
  | DeviceMismatch
  | RefreshTokenExpired
  | InvalidExpiryFormat (expiry : string)
  | DanglingReference.

(** The text each error carries in the sources (the first six are the
    messages of the jsonwebtoken package). *)
Definition message (e : Error) : string :=
  match e with
  | JwtMalformed => "jwt malformed"
  | JwtSecretRequired => "secret or public key must be provided"
  | JwtKeyRequired => "secretOrPrivateKey must have a value"
  | JwtInvalidSignature => "invalid signature"
  | JwtExpired => "jwt expired"
  | JwtBadExpiresIn => "expiresIn should be a number of seconds or string representing a timespan"
  | InvalidTokenType => "Invalid token type"
  | InvalidOrExpiredAccessToken => "Invalid or expired access token"
  | InvalidOrExpiredRefreshToken => "Invalid or expired refresh token"
  | InvalidRefreshToken => "Invalid refresh token"
  | ConcurrentUsageDetected => "Concurrent token usage detected. All tokens invalidated."
  | DeviceMismatch => "Device mismatch detected"
  | RefreshTokenExpired => "Refresh token expired"
  | InvalidExpiryFormat expiry => "Invalid expiry format: " +:+ expiry
  | DanglingReference => "unreachable: a stored object is never freed"
  end.

#[global] Instance Error_eq_dec : EqDecision Error.
Proof. solve_decision. Defined.

(** [Result<T>] of types/index.ts; also the outcome of a promise. *)
Inductive Result (A : Type) : Type :=
  | Ok (data : A)
  | Throw (error : Error).
Arguments Ok {A} data.
Arguments Throw {A} error.

Definition isOk {A} (r : Result A) : bool :=
  match r with Ok _ => true | Throw _ => false end.

(** Asynchronous code over a store [S]: explicit state passing. *)
Definition Async (S A : Type) : Type := S -> Result A * S.

Definition aret {S A} (a : A) : Async S A := fun s => (Ok a, s).
Definition athrow {S A} (e : Error) : Async S A := fun s => (Throw e, s).
Definition abind {S A B} (m : Async S A) (k : A -> Async S B) : Async S B :=
  fun s => match m s with
           | (Ok a, s') => k a s'
           | (Throw e, s') => (Throw e, s')
           end.
(** A synchronous, possibly throwing computation used inside async code. *)
Definition alift {S A} (r : Result A) : Async S A := fun s => (r, s).

Notation "'await' x <- m ;; k" := (abind m (fun x => k))
  (at level 10, x name, m at level 99, k at level 200, only parsing).


(** ** Data model (types/index.ts) *)

(** [string | number]; [===] never identifies a string with a number. *)
Inductive UserId : Type :=
  | UStr (s : string)
  | UNum (n : Z).

#[global] Instance UserId_eq_dec : EqDecision UserId.
Proof. solve_decision. Defined.

Record User : Type := mkUser {
  user_id : UserId;
  user_email : option string
}.

(** The claims handed to [jwt.sign]: the union of [AccessTokenPayload] and
    [RefreshTokenPayload] without [iat] and [exp]. A decoded payload is
    untrusted, so its [type] may be anything or missing. *)
Record Claims : Type := mkClaims {
  c_userId : UserId;
  c_email : option string;
  c_type : option string;
  c_jti : option string;
  c_deviceHash : option string
}.

#[global] Instance Claims_eq_dec : EqDecision Claims.
Proof. solve_decision. Defined.

(** What [jwt.verify] returns: the claims with the registered [iat] and
    [exp] (seconds). *)
Record JwtPayload : Type := mkPayload {
  p_claims : Claims;
  p_iat : Z;
  p_exp : option Z
}.

(** A token string. The HMAC is idealised: a signed token carries the secret
    it was signed with and only that secret validates it; every other
    string is [Garbage]. *)
Inductive Token : Type :=
  | Signed (secret : string) (claims : Claims) (iat : Z) (exp : option Z)
  | Garbage (s : string).

#[global] Instance Token_eq_dec : EqDecision Token.
Proof. solve_decision. Defined.

#[global] Instance UserId_countable : Countable UserId.
Proof.
  refine (inj_countable'
            (fun u => match u with UStr s => inl s | UNum n => inr n end)
            (fun x => match x with inl s => UStr s | inr n => UNum n end) _).
  by intros [].
Defined.

#[global] Instance Claims_countable : Countable Claims.
Proof.
  refine (inj_countable'
            (fun c => (c_userId c, c_email c, c_type c, c_jti c, c_deviceHash c))
            (fun '(u, e, t, j, d) => mkClaims u e t j d) _).
  by intros [].
Defined.

#[global] Instance Token_countable : Countable Token.
Proof.
  refine (inj_countable'
            (fun t => match t with
                      | Signed k c i e => inl (k, c, i, e)
                      | Garbage s => inr s
                      end)
            (fun x => match x with
                      | inl (k, c, i, e) => Signed k c i e
                      | inr s => Garbage s
                      end) _).
  by intros [].
Defined.

Definition tokenClaims (t : Token) : option Claims :=
  match t with Signed _ c _ _ => Some c | Garbage _ => None end.

Definition tokenJti (t : Token) : option string := tokenClaims t ≫= c_jti.

Record TokenPair : Type := mkTokenPair {
  accessToken : Token;
  refreshToken : Token
}.

(** [TokenConfig]: the expiries are optional. *)
Record TokenConfig : Type := mkTokenConfig {
  cfg_accessTokenSecret : string;
  cfg_refreshTokenSecret : string;
  cfg_accessTokenExpiry : option string;
  cfg_refreshTokenExpiry : option string
}.

(** [Required<TokenConfig>]. *)
Record ResolvedConfig : Type := mkResolvedConfig {
  accessTokenSecret : string;
  refreshTokenSecret : string;
  accessTokenExpiry : string;
  refreshTokenExpiry : string
}.

Record SecurityOptions : Type := mkSecurityOptions {
  opt_enableTokenRotation : option bool;
  opt_enableConcurrentUsageDetection : option bool;
  opt_enableDeviceFingerprinting : option bool;
  opt_enableLocationTracking : option bool;
  opt_maxConcurrentTokens : option Z
}.

Record ResolvedSecurityOptions : Type := mkResolvedSecurityOptions {
  enableTokenRotation : bool;
  enableConcurrentUsageDetection : bool;
  enableDeviceFingerprinting : bool;
  enableLocationTracking : bool;
  maxConcurrentTokens : Z
}.

Record DeviceInfo : Type := mkDeviceInfo {
  fingerprint : option string;
  dev_ipAddress : option string;
  dev_userAgent : option string;
  location : option string
}.

(** [RefreshTokenData]; [rec_id] is the decimal text of the store's counter. *)
Record RefreshTokenData : Type := mkRefreshTokenData {
  rec_id : string;
  userId : UserId;
  token : Token;
  deviceFingerprint : option string;
  ipAddress : option string;
  userAgent : option string;
  isUsed : bool;
  createdAt : Z;
  expiresAt : Z
}.

(** [AuthContext]. The [storage] member is the in-memory store of
    storage/memoryStorage.ts, whose state the async code threads. *)
Record AuthContext : Type := mkAuthContext {
  config : ResolvedConfig;
  securityOptions : ResolvedSecurityOptions
}.

(** The inputs a call takes from its environment. *)
Record Env : Type := mkEnv {
  e_now : Z;
  e_jti : string
}.

(** JavaScript truthiness of an optional string: [undefined] and the empty
    string are falsy. *)
Definition truthy (s : option string) : option string :=
  match s with
  | Some x => if decide (x = "") then None else Some x
  | None => None
  end.

(** ** utils/helper.ts: parseExpiry *)

Definition is_digit (c : ascii) : bool :=
  let n := nat_of_ascii c in (48 <=? n)%nat && (n <=? 57)%nat.

(** The table [units] of [parseExpiry]; [None] for a character the class
    [[smhd]] does not contain. *)
Definition units (c : ascii) : option Z :=
  if decide (c = "s"%char) then Some 1000
  else if decide (c = "m"%char) then Some (60 * 1000)
  else if decide (c = "h"%char) then Some (60 * 60 * 1000)
  else if decide (c = "d"%char) then Some (24 * 60 * 60 * 1000)
  else None.

(** [Number.MAX_SAFE_INTEGER], 2^53 - 1: up to it every integer is a
    double, and sums and products of integers that stay within it are
    computed exactly. *)
Definition MAX_SAFE_INTEGER : Z := 9007199254740991.

(** [parseInt] on a string of decimal digits, most significant first. The
    value is the exact integer, on [Z]; the source computes
    [parseInt(amount) * units[unit]] in doubles, which is this integer as
    long as the product does not exceed [MAX_SAFE_INTEGER] and a rounded
    number (or Infinity) beyond. *)
Fixpoint parseInt_from (acc : Z) (s : string) : Z :=
  match s with
  | EmptyString => acc
  | String c rest => parseInt_from (10 * acc + (Z.of_nat (nat_of_ascii c) - 48)) rest
  end.
Definition parseInt (s : string) : Z := parseInt_from 0 s.

(** A run of digits, possibly empty, followed by one unit character and
    the end of the string: the digits and the unit. *)
Fixpoint match_digits_unit (s : string) : option (string * ascii) :=
  match s with
  | EmptyString => None
  | String c EmptyString =>
      match units c with Some _ => Some (EmptyString, c) | None => None end
  | String c rest =>
      if is_digit c then
        match match_digits_unit rest with
        | Some (amount, unit) => Some (String c amount, unit)
        | None => None
        end
      else None
  end.

(** [expiry.match] on the pattern of [parseExpiry]: one digit at least,
    then one of s, m, h, d, then the end of the string. *)
Definition match_expiry (expiry : string) : option (string * ascii) :=
  match match_digits_unit expiry with
  | Some (String c amount, unit) => Some (String c amount, unit)
  | _ => None
  end.

Definition parseExpiry (expiry : string) : Result Z :=
  match match_expiry expiry with
  | None => Throw (InvalidExpiryFormat expiry)
  | Some (amount, unit) =>
      match units unit with
      | Some u => Ok (parseInt amount * u)
      | None => Throw (InvalidExpiryFormat expiry)
      end
  end.

(** The format as the specification words it: digits followed by one of
    [s], [m], [h], [d]. *)
Fixpoint all_digits (s : string) : bool :=
  match s with
  | EmptyString => true
  | String c rest => is_digit c && all_digits rest
  end.

Definition expiry_well_formed (expiry : string) : Prop :=
  exists (amount : string) (unit : ascii),
    expiry = amount +:+ String unit EmptyString /\
    amount <> EmptyString /\
    all_digits amount = true /\
    (unit = "s" \/ unit = "m" \/ unit = "h" \/ unit = "d")%char.

(** ** utils/helper.ts: createAuthContext *)

(** [a || b] on an optional string. *)
Definition or_default (a : option string) (b : string) : string :=
  match truthy a with Some x => x | None => b end.

Definition createAuthContext (cfg : TokenConfig) (securityOpts : SecurityOptions)
  : AuthContext :=
  {| config :=
       {| accessTokenSecret := cfg_accessTokenSecret cfg;
          refreshTokenSecret := cfg_refreshTokenSecret cfg;
          accessTokenExpiry := or_default (cfg_accessTokenExpiry cfg) "15m";
          refreshTokenExpiry := or_default (cfg_refreshTokenExpiry cfg) "7d" |};
     securityOptions :=
       {| enableTokenRotation := default true (opt_enableTokenRotation securityOpts);
          enableConcurrentUsageDetection :=
            default true (opt_enableConcurrentUsageDetection securityOpts);
          enableDeviceFingerprinting :=
            default false (opt_enableDeviceFingerprinting securityOpts);
          enableLocationTracking :=
            default false (opt_enableLocationTracking securityOpts);
          maxConcurrentTokens := default 5 (opt_maxConcurrentTokens securityOpts) |} |}.

(** [securityOptions = {}]. *)
Definition noSecurityOptions : SecurityOptions :=
  mkSecurityOptions None None None None None.

(** ** storage/memoryStorage.ts

    [tokens] is the [Map<string, RefreshTokenData>]. Its values are objects:
    [getRefreshToken] hands out the stored object itself and
    [markTokenAsUsed] mutates it in place, so the records live in [heap] and
    the map holds references (indices into [heap]). Objects are never
    freed. *)

Record MemoryStorage : Type := mkMemoryStorage {
  tokens : gmap Token nat;
  heap : list RefreshTokenData;
  idCounter : N
}.

(** [createMemoryStorage()]. *)
Definition createMemoryStorage : MemoryStorage :=
  {| tokens := ∅; heap := []; idCounter := 1%N |}.

(** [Omit<RefreshTokenData, "id">] is a record whose [rec_id] is ignored. *)
Definition saveRefreshToken (data : RefreshTokenData) : Async MemoryStorage string :=
  fun st =>
    let id := pretty (idCounter st) in
    let tokenData :=
      {| rec_id := id; userId := userId data; token := token data;
         deviceFingerprint := deviceFingerprint data; ipAddress := ipAddress data;
         userAgent := userAgent data; isUsed := isUsed data;
         createdAt := createdAt data; expiresAt := expiresAt data |} in
    (Ok id,
     {| tokens := <[token data := length (heap st)]> (tokens st);
        heap := heap st ++ [tokenData];
        idCounter := (idCounter st + 1)%N |}).

(** [tokens.get(token) || null]: a reference to the stored object. *)
Definition getRefreshToken (tok : Token) : Async MemoryStorage (option nat) :=
  fun st => (Ok (tokens st !! tok), st).

Definition invalidateRefreshToken (tok : Token) : Async MemoryStorage unit :=
  fun st =>
    (Ok tt, {| tokens := delete tok (tokens st); heap := heap st;
               idCounter := idCounter st |}).

(** Whether the object at [ref] belongs to [uid] ([data.userId === userId]). *)
Definition ownedBy (h : list RefreshTokenData) (uid : UserId) (ref : nat) : Prop :=
  userId <$> (h !! ref) = Some uid.

#[global] Instance ownedBy_dec h uid ref : Decision (ownedBy h uid ref).
Proof. unfold ownedBy. apply _. Defined.

Definition invalidateAllUserTokens (uid : UserId) : Async MemoryStorage unit :=
  fun st =>
    (Ok tt,
     {| tokens := filter (fun kv => ¬ ownedBy (heap st) uid kv.2) (tokens st);
        heap := heap st; idCounter := idCounter st |}).

Definition setUsed (d : RefreshTokenData) : RefreshTokenData :=
  {| rec_id := rec_id d; userId := userId d; token := token d;
     deviceFingerprint := deviceFingerprint d; ipAddress := ipAddress d;
     userAgent := userAgent d; isUsed := true;
     createdAt := createdAt d; expiresAt := expiresAt d |}.

Definition markTokenAsUsed (tok : Token) : Async MemoryStorage unit :=
  fun st =>
    match tokens st !! tok with
    | Some ref =>
        (Ok tt, {| tokens := <[tok := ref]> (tokens st);
                   heap := alter setUsed ref (heap st);
                   idCounter := idCounter st |})
    | None => (Ok tt, st)
    end.

(** [data.expiresAt < now] for the object at [ref]. *)
Definition expiredAt (h : list RefreshTokenData) (now : Z) (ref : nat) : Prop :=
  from_option (fun d => expiresAt d < now) False (h !! ref).

#[global] Instance expiredAt_dec h now ref : Decision (expiredAt h now ref).
Proof. unfold expiredAt. destruct (h !! ref); simpl; apply _. Defined.

Definition cleanupExpiredTokens (now : Z) : Async MemoryStorage unit :=
  fun st =>
    (Ok tt,
     {| tokens := filter (fun kv => ¬ expiredAt (heap st) now kv.2) (tokens st);
        heap := heap st; idCounter := idCounter st |}).

(** Reading a field through a reference. *)
Definition deref (ref : nat) : Async MemoryStorage RefreshTokenData :=
  fun st => match heap st !! ref with
            | Some d => (Ok d, st)
            | None => (Throw DanglingReference, st)
            end.

(** ** External packages

    [ms] is the timespan parser of the ms package, which jsonwebtoken
    applies to a textual [expiresIn] (milliseconds, [None] for a text it
    does not understand); [sha256_hex] is
    [crypto.createHash("sha256").update(x).digest("hex")], whose result
    (64 hexadecimal digits) is never the empty string. *)
Class ExternalLibs : Type := {
  ms : string -> option Z;
  sha256_hex : string -> string;
  sha256_hex_nonempty : forall x, sha256_hex x <> ""
}.

(** The [expiresIn] option of [jwt.sign]: a timespan text or a number of
    seconds. *)
Inductive ExpiresIn : Type :=
  | ExpiresInText (s : string)
  | ExpiresInSeconds (n : Z).

#[global] Instance ExpiresIn_eq_dec : EqDecision ExpiresIn.
Proof. solve_decision. Defined.

Section Core.
Context `{ExternalLibs}.

(** *** jsonwebtoken *)

(** [timespan(time, iat)] of jsonwebtoken:
    [Math.floor(timestamp + ms(time) / 1000)] for a text,
    [timestamp + time] for a number. *)
Definition timespan (time : ExpiresIn) (timestamp : Z) : option Z :=
  match time with
  | ExpiresInText s =>
      match ms s with
      | Some milliseconds => Some (timestamp + milliseconds `div` 1000)
      | None => None
      end
  | ExpiresInSeconds n => Some (timestamp + n)
  end.

(** [jwt.sign(payload, secret, { expiresIn })] at the instant [now]. *)
Definition jwt_sign (now : Z) (payload : Claims) (secret : string)
    (expiresIn : ExpiresIn) : Result Token :=
  if decide (secret = "") then Throw JwtKeyRequired
  else if decide (expiresIn = ExpiresInText "") then Throw JwtBadExpiresIn
  else
    let timestamp := now `div` 1000 in
    match timespan expiresIn timestamp with
    | Some exp => Ok (Signed secret payload timestamp (Some exp))
    | None => Throw JwtBadExpiresIn
    end.

(** [jwt.verify(token, secret, {})] at the instant [now]. A string that is
    not a token is refused before any signature is checked; the library
    words that refusal by the string ("jwt must be provided" for the empty
    one, "jwt malformed", "invalid token"), here it is [JwtMalformed] for
    all of them. *)
Definition jwt_verify (now : Z) (tok : Token) (secret : string) : Result JwtPayload :=
  match tok with
  | Garbage _ => Throw JwtMalformed
  | Signed key claims iat exp =>
      if decide (secret = "") then Throw JwtSecretRequired
      else if decide (key = secret) then
        match exp with
        | Some e =>
            if decide (e <= now `div` 1000) then Throw JwtExpired
            else Ok (mkPayload claims iat exp)
        | None => Ok (mkPayload claims iat exp)
        end
      else Throw JwtInvalidSignature
  end.

(** *** utils/helper.ts *)

Definition generateDeviceHash (fp : string) : string := sha256_hex fp.

(** *** core/tokenGeneration.ts *)

Definition generateAccessToken (e : Env) (user : User) (context : AuthContext)
  : Result Token :=
  let payload :=
    {| c_userId := user_id user; c_email := user_email user;
       c_type := Some "access"; c_jti := None; c_deviceHash := None |} in
  let options := ExpiresInText (accessTokenExpiry (config context)) in
  jwt_sign (e_now e) payload (accessTokenSecret (config context)) options.

(** The [deviceHash] member of the refresh payload. *)
Definition payloadDeviceHash (context : AuthContext) (deviceInfo : option DeviceInfo)
  : option string :=
  if enableDeviceFingerprinting (securityOptions context) then
    generateDeviceHash <$> truthy (deviceInfo ≫= fingerprint)
  else None.

Definition generateRefreshToken (e : Env) (user : User) (context : AuthContext)
    (deviceInfo : option DeviceInfo) : Result Token :=
  let payload :=
    {| c_userId := user_id user; c_email := None;
       c_type := Some "refresh"; c_jti := Some (e_jti e);
       c_deviceHash := payloadDeviceHash context deviceInfo |} in
  let options := ExpiresInText (accessTokenExpiry (config context)) in
  jwt_sign (e_now e) payload (refreshTokenSecret (config context)) options.

(** The record [generateTokenPair] persists for [refreshToken]. *)
Definition newRefreshTokenData (e : Env) (user : User) (refreshToken : Token)
    (deviceInfo : option DeviceInfo) (expiry : Z) : RefreshTokenData :=
  {| rec_id := "";
     userId := user_id user;
     token := refreshToken;
     deviceFingerprint := deviceInfo ≫= fingerprint;
     ipAddress := deviceInfo ≫= dev_ipAddress;
     userAgent := deviceInfo ≫= dev_userAgent;
     isUsed := false;
     createdAt := e_now e;
     expiresAt := e_now e + expiry |}.

Definition generateTokenPair (e : Env) (user : User) (context : AuthContext)
    (deviceInfo : option DeviceInfo) : Async MemoryStorage TokenPair :=
  await accessToken <- alift (generateAccessToken e user context) ;;
  await refreshToken <- alift (generateRefreshToken e user context deviceInfo) ;;
  await expiry <- alift (parseExpiry (refreshTokenExpiry (config context))) ;;
  await _ <- saveRefreshToken
               (newRefreshTokenData e user refreshToken deviceInfo expiry) ;;
  aret (mkTokenPair accessToken refreshToken).

(** *** core/tokenGeneration.ts, the variant that converts the expiries
    with [parseExpiry] before signing *)

Definition generateAccessToken_parseExpiry (e : Env) (user : User)
    (context : AuthContext) : Result Token :=
  let payload :=
    {| c_userId := user_id user; c_email := user_email user;
       c_type := Some "access"; c_jti := None; c_deviceHash := None |} in
  match parseExpiry (accessTokenExpiry (config context)) with
  | Throw err => Throw err
  | Ok expiresIn =>
      jwt_sign (e_now e) payload (accessTokenSecret (config context))
               (ExpiresInSeconds expiresIn)
  end.

Definition generateRefreshToken_parseExpiry (e : Env) (user : User)
    (context : AuthContext) (deviceInfo : option DeviceInfo) : Result Token :=
  let payload :=
    {| c_userId := user_id user; c_email := None;
       c_type := Some "refresh"; c_jti := Some (e_jti e);
       c_deviceHash := payloadDeviceHash context deviceInfo |} in
  match parseExpiry (refreshTokenExpiry (config context)) with
  | Throw err => Throw err
  | Ok expiresIn =>
      jwt_sign (e_now e) payload (refreshTokenSecret (config context))
               (ExpiresInSeconds expiresIn)
  end.

Definition generateTokenPair_parseExpiry (e : Env) (user : User)
    (context : AuthContext) (deviceInfo : option DeviceInfo)
  : Async MemoryStorage TokenPair :=
  await accessToken <- alift (generateAccessToken_parseExpiry e user context) ;;
  await refreshToken <-
    alift (generateRefreshToken_parseExpiry e user context deviceInfo) ;;
  await expiry <- alift (parseExpiry (refreshTokenExpiry (config context))) ;;
  await _ <- saveRefreshToken
               (newRefreshTokenData e user refreshToken deviceInfo expiry) ;;
  aret (mkTokenPair accessToken refreshToken).

(** *** core/tokenVerification.ts *)

Definition verifyAccessToken (e : Env) (tok : Token) (context : AuthContext)
  : Result JwtPayload :=
  match jwt_verify (e_now e) tok (accessTokenSecret (config context)) with
  | Ok decoded =>
      if decide (c_type (p_claims decoded) <> Some "access")
      then Throw InvalidTokenType
      else Ok decoded
  | Throw error => Throw error
  end.

Definition verifyRefreshToken (e : Env) (tok : Token) (context : AuthContext)
  : Result JwtPayload :=
  match jwt_verify (e_now e) tok (refreshTokenSecret (config context)) with
  | Ok decoded =>
      if decide (c_type (p_claims decoded) <> Some "refresh")
      then Throw InvalidTokenType
      else Ok decoded
  | Throw error => Throw error
  end.

(** The earlier, untyped variant of the same module. *)
Definition verifyAccessToken_untyped (e : Env) (tok : Token) (context : AuthContext)
  : Result JwtPayload :=
  match jwt_verify (e_now e) tok (accessTokenSecret (config context)) with
  | Ok decoded => Ok decoded
  | Throw _ => Throw InvalidOrExpiredAccessToken
  end.

Definition verifyRefreshToken_untyped (e : Env) (tok : Token) (context : AuthContext)
  : Result JwtPayload :=
  match jwt_verify (e_now e) tok (refreshTokenSecret (config context)) with
  | Ok decoded => Ok decoded
  | Throw _ => Throw InvalidOrExpiredRefreshToken
  end.

(** *** core/securityChecks.ts

    [tokenData] is the reference [getRefreshToken] returned. *)

Definition checkConcurrentUsage (tokenData : nat) (context : AuthContext)
  : Async MemoryStorage unit :=
  if enableConcurrentUsageDetection (securityOptions context) then
    await d <- deref tokenData ;;
    if isUsed d then
      await _ <- invalidateAllUserTokens (userId d) ;;
      athrow ConcurrentUsageDetected
    else aret tt
  else aret tt.

Definition checkDeviceFingerprint (decoded : JwtPayload)
    (deviceInfo : option DeviceInfo) : Result unit :=
  match truthy (c_deviceHash (p_claims decoded)),
        truthy (deviceInfo ≫= fingerprint) with
  | Some deviceHash, Some fp =>
      let currentDeviceHash := generateDeviceHash fp in
      if decide (deviceHash <> currentDeviceHash) then Throw DeviceMismatch
      else Ok tt
  | _, _ => Ok tt
  end.

Definition checkTokenExpiry (e : Env) (tokenData : nat) (context : AuthContext)
  : Async MemoryStorage unit :=
  await d <- deref tokenData ;;
  if decide (expiresAt d < e_now e) then
    await _ <- invalidateRefreshToken (token d) ;;
    athrow RefreshTokenExpired
  else aret tt.

(** The part of [performSecurityChecks] after [await checkConcurrentUsage]. *)
Definition checkDeviceAndExpiry (e : Env) (tokenData : nat) (decoded : JwtPayload)
    (context : AuthContext) (deviceInfo : option DeviceInfo)
  : Async MemoryStorage unit :=
  await _ <- (if enableDeviceFingerprinting (securityOptions context)
              then alift (checkDeviceFingerprint decoded deviceInfo)
              else aret tt) ;;
  checkTokenExpiry e tokenData context.

Definition performSecurityChecks (e : Env) (tokenData : nat) (decoded : JwtPayload)
    (context : AuthContext) (deviceInfo : option DeviceInfo)
  : Async MemoryStorage unit :=
  await _ <- checkConcurrentUsage tokenData context ;;
  checkDeviceAndExpiry e tokenData decoded context deviceInfo.

(** *** core/tokenRefresh.ts *)

(** The part of [refreshTokens] between [await performSecurityChecks] and
    [generateTokenPair]. *)
Definition rotateToken (refreshToken : Token) (context : AuthContext)
  : Async MemoryStorage unit :=
  if enableTokenRotation (securityOptions context)
  then markTokenAsUsed refreshToken
  else aret tt.

(** The object [{ id: decoded.userId }]. *)
Definition refreshUser (decoded : JwtPayload) : User :=
  {| user_id := c_userId (p_claims decoded); user_email := None |}.

Definition refreshTokens (e : Env) (refreshToken : Token) (context : AuthContext)
    (deviceInfo : option DeviceInfo) : Async MemoryStorage TokenPair :=
  await decoded <- alift (verifyRefreshToken e refreshToken context) ;;
  await tokenData <- getRefreshToken refreshToken ;;
  match tokenData with
  | None => athrow InvalidRefreshToken
  | Some tokenData =>
      await _ <- performSecurityChecks e tokenData decoded context deviceInfo ;;
      let user := refreshUser decoded in
      await _ <- rotateToken refreshToken context ;;
      generateTokenPair e user context deviceInfo
  end.

(** *** core/tokenInvalidation.ts *)

Definition logoutUser (uid : UserId) : Async MemoryStorage unit :=
  invalidateAllUserTokens uid.

Definition logoutDevice (refreshToken : Token) : Async MemoryStorage unit :=
  invalidateRefreshToken refreshToken.

End Core.


(** ** Interleaved calls of refreshTokens

    An [async] function runs without interruption up to the next [await]
    that touches the store; there another call may run. [RefreshPc] names
    the points at which a call of [refreshTokens] can be suspended, and
    [refreshStep] runs one call from such a point to the next. A call whose
    remaining code no longer touches the store is settled at once. *)

Inductive RefreshPc : Type :=
  | NotStarted
  | AwaitGetRefreshToken (decoded : JwtPayload) (tokenData : option nat)
  | AwaitCheckConcurrentUsage (decoded : JwtPayload) (tokenData : nat)
  | AwaitPerformSecurityChecks (decoded : JwtPayload)
  | AwaitMarkTokenAsUsed (decoded : JwtPayload)
  | Settled (outcome : Result TokenPair).

Record RefreshCall : Type := mkRefreshCall {
  call_refreshToken : Token;
  call_deviceInfo : option DeviceInfo;
  call_pc : RefreshPc
}.

Section Interleaving.
Context `{ExternalLibs}.

Definition refreshStep (e : Env) (context : AuthContext) (c : RefreshCall)
  : MemoryStorage -> RefreshCall * MemoryStorage :=
  fun st =>
    let goto pc := mkRefreshCall (call_refreshToken c) (call_deviceInfo c) pc in
    match call_pc c with
    | NotStarted =>
        match verifyRefreshToken e (call_refreshToken c) context with
        | Throw err => (goto (Settled (Throw err)), st)
        | Ok decoded =>
            match getRefreshToken (call_refreshToken c) st with
            | (Ok tokenData, st') => (goto (AwaitGetRefreshToken decoded tokenData), st')
            | (Throw err, st') => (goto (Settled (Throw err)), st')
            end
        end
    | AwaitGetRefreshToken decoded None =>
        (goto (Settled (Throw InvalidRefreshToken)), st)
    | AwaitGetRefreshToken decoded (Some tokenData) =>
        match checkConcurrentUsage tokenData context st with
        | (Ok _, st') => (goto (AwaitCheckConcurrentUsage decoded tokenData), st')
        | (Throw err, st') => (goto (Settled (Throw err)), st')
        end
    | AwaitCheckConcurrentUsage decoded tokenData =>
        match checkDeviceAndExpiry e tokenData decoded context (call_deviceInfo c) st with
        | (Ok _, st') => (goto (AwaitPerformSecurityChecks decoded), st')
        | (Throw err, st') => (goto (Settled (Throw err)), st')
        end
    | AwaitPerformSecurityChecks decoded =>
        if enableTokenRotation (securityOptions context) then
          match markTokenAsUsed (call_refreshToken c) st with
          | (Ok _, st') => (goto (AwaitMarkTokenAsUsed decoded), st')
          | (Throw err, st') => (goto (Settled (Throw err)), st')
          end
        else
          let '(outcome, st') :=
            generateTokenPair e (refreshUser decoded) context (call_deviceInfo c) st in
          (goto (Settled outcome), st')
    | AwaitMarkTokenAsUsed decoded =>
        let '(outcome, st') :=
          generateTokenPair e (refreshUser decoded) context (call_deviceInfo c) st in
        (goto (Settled outcome), st')
    | Settled _ => (c, st)
    end.

(** A system of calls in flight over one store; an event of a schedule
    resumes the call at an index, with the clock and the random identifier
    of that segment. An index that names no call is skipped. *)
Definition scheduleStep (context : AuthContext)
    (sys : list RefreshCall * MemoryStorage) (ev : nat * Env)
  : list RefreshCall * MemoryStorage :=
  match sys.1 !! ev.1 with
  | Some c =>
      let '(c', st') := refreshStep ev.2 context c sys.2 in
      (<[ev.1 := c']> sys.1, st')
  | None => sys
  end.

Definition runSchedule (context : AuthContext) (schedule : list (nat * Env))
    (sys : list RefreshCall * MemoryStorage) : list RefreshCall * MemoryStorage :=
  foldl (scheduleStep context) sys schedule.

(** A call that has returned a token pair. *)
Definition returnedPair (c : RefreshCall) : bool :=
  match call_pc c with
  | Settled (Ok _) => true
  | _ => false
  end.

(** One call run to completion with no other call in between. *)
Definition runAlone (e : Env) (context : AuthContext) (c : RefreshCall)
    (st : MemoryStorage) : RefreshCall * MemoryStorage :=
  Nat.iter 5 (fun cs => refreshStep e context cs.1 cs.2) (c, st).

End Interleaving.

(** ** Rate limiting and brute-force protection
    (types/security/rateLimiting, security/rateLimiting, and the in-memory
    rate-limit storage) *)

Module RateLimit.

Record BruteForceOptions : Type := mkBruteForceOptions {
  enabled : bool;
  maxFailedAttempts : Z;
  lockoutDurationMs : Z;
  resetCountOnSuccess : bool
}.

Record AlertOptions : Type := mkAlertOptions {
  alerts_enabled : bool;
  threshold : Z;
  webhook : option string;
  email : option string
}.

(** [Required<RateLimitOptions>]. *)
Record RateLimitOptions : Type := mkRateLimitOptions {
  maxAttempts : Z;
  windowMs : Z;
  blockDurationMs : Z;
  skipSuccessfulRequests : bool;
  skipFailedRequests : bool;
  progressiveDelay : bool;
  keyGenerator : string -> string;
  whitelist : list string;
  blacklist : list string;
  bruteForce : BruteForceOptions;
  alerts : AlertOptions
}.

(** [RateLimitOptions] as the caller writes it: optional members. *)
Record BruteForceInput : Type := mkBruteForceInput {
  in_enabled : bool;
  in_maxFailedAttempts : Z;
  in_lockoutDurationMs : Z;
  in_resetCountOnSuccess : option bool
}.

Record AlertInput : Type := mkAlertInput {
  in_alerts_enabled : bool;
  in_threshold : Z;
  in_webhook : option string;
  in_email : option string
}.

Record RateLimitInput : Type := mkRateLimitInput {
  in_maxAttempts : Z;
  in_windowMs : Z;
  in_blockDurationMs : Z;
  in_skipSuccessfulRequests : option bool;
  in_skipFailedRequests : option bool;
  in_progressiveDelay : option bool;
  in_keyGenerator : option (string -> string);
  in_whitelist : option (list string);
  in_blacklist : option (list string);
  in_bruteForce : option BruteForceInput;
  in_alerts : option AlertInput
}.

Record RateLimitEntry : Type := mkRateLimitEntry {
  attempts : Z;
  firstAttempt : Z;
  lastAttempt : Z;
  blockedUntil : option Z;
  successfulAttempts : option Z;
  entry_failedAttempts : option Z
}.

Record BruteForceEntry : Type := mkBruteForceEntry {
  bf_userId : string;
  failedAttempts : Z;
  lockedUntil : option Z;
  lastFailedAttempt : Z
}.

Record RateLimitResult : Type := mkRateLimitResult {
  allowed : bool;
  remaining : Z;
  resetTime : Z;
  retryAfter : option Z;
  reason : option string
}.

(** What [sendAlert] emits: a POST to the webhook or a console warning. *)
Inductive Alert : Type :=
  | WebhookAlert (url identifier : string) (nattempts timestamp : Z)
  | EmailAlert (address identifier : string) (nattempts timestamp : Z).

(** The state of [createMemoryRateLimitStorage()]: the two maps, and the
    pending [setTimeout] callbacks, each with the instant it is due and the
    key it deletes. [alertLog] collects what [sendAlert] emitted. *)
Record Store : Type := mkStore {
  rateLimitEntries : gmap string RateLimitEntry;
  bruteForceEntries : gmap string BruteForceEntry;
  rateLimitTimers : list (Z * string);
  bruteForceTimers : list (Z * string);
  alertLog : list Alert
}.

Definition emptyStore : Store :=
  {| rateLimitEntries := ∅; bruteForceEntries := ∅;
     rateLimitTimers := []; bruteForceTimers := []; alertLog := [] |}.

(** [RateLimitContext]; its [storage] is the [Store] the code threads. *)
Record RateLimitContext : Type := mkRateLimitContext {
  options : RateLimitOptions
}.

(** *** createRateLimitContext.ts *)

Definition createRateLimitContext (opts : RateLimitInput) : RateLimitContext :=
  {| options :=
       {| maxAttempts := in_maxAttempts opts;
          windowMs := in_windowMs opts;
          blockDurationMs := in_blockDurationMs opts;
          skipSuccessfulRequests := default false (in_skipSuccessfulRequests opts);
          skipFailedRequests := default false (in_skipFailedRequests opts);
          progressiveDelay := default false (in_progressiveDelay opts);
          keyGenerator :=
            default (fun id => "rateLimit:" +:+ id) (in_keyGenerator opts);
          whitelist := default [] (in_whitelist opts);
          blacklist := default [] (in_blacklist opts);
          bruteForce :=
            {| enabled := default true (in_enabled <$> in_bruteForce opts);
               maxFailedAttempts :=
                 default 10 (in_maxFailedAttempts <$> in_bruteForce opts);
               lockoutDurationMs :=
                 default (60 * 60 * 1000)
                         (in_lockoutDurationMs <$> in_bruteForce opts);
               resetCountOnSuccess :=
                 default true (in_bruteForce opts ≫= in_resetCountOnSuccess) |};
          alerts :=
            {| alerts_enabled := default false (in_alerts_enabled <$> in_alerts opts);
               threshold := default 5 (in_threshold <$> in_alerts opts);
               webhook := in_alerts opts ≫= in_webhook;
               email := in_alerts opts ≫= in_email |} |} |}.

(** *** The in-memory rate-limit storage *)

(** The delay [setTimeout] really waits: a delay outside 1 .. 2^31-1 is
    replaced by 1 (Node.js timers). *)
Definition timerDelay (ttl : Z) : Z :=
  if decide (1 <= ttl <= 2147483647) then ttl else 1.

(** The event loop at the instant [now]: every due callback has run. *)
Definition runTimers (now : Z) (st : Store) : Store :=
  let due (t : Z * string) := bool_decide (t.1 <= now) in
  {| rateLimitEntries :=
       foldl (fun m t => if due t then delete t.2 m else m)
             (rateLimitEntries st) (rateLimitTimers st);
     bruteForceEntries :=
       foldl (fun m t => if due t then delete t.2 m else m)
             (bruteForceEntries st) (bruteForceTimers st);
     rateLimitTimers := filter (fun t => ¬ (t.1 <= now)) (rateLimitTimers st);
     bruteForceTimers := filter (fun t => ¬ (t.1 <= now)) (bruteForceTimers st);
     alertLog := alertLog st |}.

Definition getRateLimitEntry (key : string) (st : Store) : option RateLimitEntry :=
  rateLimitEntries st !! key.

Definition saveRateLimitEntry (now : Z) (key : string) (entry : RateLimitEntry)
    (ttl : Z) (st : Store) : Store :=
  {| rateLimitEntries := <[key := entry]> (rateLimitEntries st);
     bruteForceEntries := bruteForceEntries st;
     rateLimitTimers := rateLimitTimers st ++ [(now + timerDelay ttl, key)];
     bruteForceTimers := bruteForceTimers st;
     alertLog := alertLog st |}.

Definition incrementAttempts (now : Z) (key : string) (ttl : Z) (st : Store)
  : RateLimitEntry * Store :=
  let entry :=
    match rateLimitEntries st !! key with
    | Some existing =>
        {| attempts := attempts existing + 1;
           firstAttempt := firstAttempt existing;
           lastAttempt := now;
           blockedUntil := blockedUntil existing;
           successfulAttempts := successfulAttempts existing;
           entry_failedAttempts := entry_failedAttempts existing |}
    | None =>
        {| attempts := 1; firstAttempt := now; lastAttempt := now;
           blockedUntil := None; successfulAttempts := None;
           entry_failedAttempts := None |}
    end in
  (entry, saveRateLimitEntry now key entry ttl st).

Definition clearRateLimitEntry (key : string) (st : Store) : Store :=
  {| rateLimitEntries := delete key (rateLimitEntries st);
     bruteForceEntries := bruteForceEntries st;
     rateLimitTimers := rateLimitTimers st;
     bruteForceTimers := bruteForceTimers st;
     alertLog := alertLog st |}.

Definition getBruteForceEntry (uid : string) (st : Store) : option BruteForceEntry :=
  bruteForceEntries st !! uid.

Definition saveBruteForceEntry (now : Z) (uid : string) (entry : BruteForceEntry)
    (ttl : Z) (st : Store) : Store :=
  {| rateLimitEntries := rateLimitEntries st;
     bruteForceEntries := <[uid := entry]> (bruteForceEntries st);
     rateLimitTimers := rateLimitTimers st;
     bruteForceTimers := bruteForceTimers st ++ [(now + timerDelay ttl, uid)];
     alertLog := alertLog st |}.

Definition incrementFailedAttempts (now : Z) (uid : string) (ttl : Z) (st : Store)
  : BruteForceEntry * Store :=
  let entry :=
    match bruteForceEntries st !! uid with
    | Some existing =>
        {| bf_userId := bf_userId existing;
           failedAttempts := failedAttempts existing + 1;
           lockedUntil := lockedUntil existing;
           lastFailedAttempt := now |}
    | None =>
        {| bf_userId := uid; failedAttempts := 1; lockedUntil := None;
           lastFailedAttempt := now |}
    end in
  (entry, saveBruteForceEntry now uid entry ttl st).

Definition clearBruteForceEntry (uid : string) (st : Store) : Store :=
  {| rateLimitEntries := rateLimitEntries st;
     bruteForceEntries := delete uid (bruteForceEntries st);
     rateLimitTimers := rateLimitTimers st;
     bruteForceTimers := bruteForceTimers st;
     alertLog := alertLog st |}.

(** [date && date < now] on an optional date. *)
Definition isPast (now : Z) (date : option Z) : Prop :=
  from_option (fun d => d < now) False date.

#[global] Instance isPast_dec now date : Decision (isPast now date).
Proof. unfold isPast. destruct date; simpl; apply _. Defined.

Definition cleanupExpiredEntries (now : Z) (st : Store) : Store :=
  {| rateLimitEntries :=
       filter (fun kv => ¬ isPast now (blockedUntil kv.2)) (rateLimitEntries st);
     bruteForceEntries :=
       filter (fun kv => ¬ isPast now (lockedUntil kv.2)) (bruteForceEntries st);
     rateLimitTimers := rateLimitTimers st;
     bruteForceTimers := bruteForceTimers st;
     alertLog := alertLog st |}.

(** *** utils/helperFunctions.ts *)

Definition isWhitelisted (ip : string) (l : list string) : bool := bool_decide (ip ∈ l).
Definition isBlacklisted (ip : string) (l : list string) : bool := bool_decide (ip ∈ l).

Definition isWindowExpired (now firstAttempt windowMs : Z) : bool :=
  bool_decide (now - firstAttempt > windowMs).

Definition isBlocked (now : Z) (blockedUntil : option Z) : bool :=
  match blockedUntil with
  | Some b => bool_decide (b > now)
  | None => false
  end.

Definition calculateRetryAfter (now blockedUntil : Z) : Z := blockedUntil - now.

Definition calculateRemainingAttempts (current max : Z) : Z :=
  Z.max 0 (max - current - 1).

Definition sendAlert (now : Z) (identifier : string) (nattempts : Z)
    (context : RateLimitContext) (st : Store) : Store :=
  let opts := options context in
  if negb (alerts_enabled (alerts opts)) || bool_decide (nattempts < threshold (alerts opts))
  then st
  else
    {| rateLimitEntries := rateLimitEntries st;
       bruteForceEntries := bruteForceEntries st;
       rateLimitTimers := rateLimitTimers st;
       bruteForceTimers := bruteForceTimers st;
       alertLog :=
         alertLog st
         ++ match truthy (webhook (alerts opts)) with
            | Some url => [WebhookAlert url identifier nattempts now]
            | None => []
            end
         ++ match truthy (email (alerts opts)) with
            | Some address => [EmailAlert address identifier nattempts now]
            | None => []
            end |}.

(** *** utils/rateLimitingFunctions.ts *)

Definition checkIPSecurity (now : Z) (identifier : string) (context : RateLimitContext)
  : option RateLimitResult :=
  let opts := options context in
  if isWhitelisted identifier (whitelist opts) then
    Some {| allowed := true; remaining := maxAttempts opts;
            resetTime := now + windowMs opts; retryAfter := None; reason := None |}
  else if isBlacklisted identifier (blacklist opts) then
    Some {| allowed := false; remaining := 0;
            resetTime := now + blockDurationMs opts;
            retryAfter := Some (blockDurationMs opts);
            reason := Some "IP blacklisted" |}
  else None.

Definition checkBruteForceProtection (now : Z) (uid : string)
    (context : RateLimitContext) (st : Store) : option RateLimitResult * Store :=
  let opts := options context in
  if negb (enabled (bruteForce opts)) then (None, st)
  else
    match getBruteForceEntry uid st with
    | None => (None, st)
    | Some entry =>
        if match lockedUntil entry with
           | Some l => bool_decide (l > now)
           | None => false
           end
        then
          (Some {| allowed := false; remaining := 0;
                   resetTime := default 0 (lockedUntil entry);
                   retryAfter :=
                     Some (calculateRetryAfter now (default 0 (lockedUntil entry)));
                   reason := Some "Account locked due to too many failed attempts" |},
           st)
        else if bool_decide (failedAttempts entry >= maxFailedAttempts (bruteForce opts))
        then
          let lockedUntil' := now + lockoutDurationMs (bruteForce opts) in
          (Some {| allowed := false; remaining := 0; resetTime := lockedUntil';
                   retryAfter := Some (lockoutDurationMs (bruteForce opts));
                   reason := Some "Account locked due to too many failed attempts" |},
           saveBruteForceEntry now uid
             {| bf_userId := bf_userId entry;
                failedAttempts := failedAttempts entry;
                lockedUntil := Some lockedUntil';
                lastFailedAttempt := lastFailedAttempt entry |}
             (lockoutDurationMs (bruteForce opts)) st)
        else (None, st)
    end.

Definition checkRateLimitEntry (now : Z) (identifier : string)
    (context : RateLimitContext) (st : Store) : RateLimitResult * Store :=
  let opts := options context in
  let key := keyGenerator opts identifier in
  match getRateLimitEntry key st with
  | None =>
      ({| allowed := true; remaining := maxAttempts opts - 1;
          resetTime := now + windowMs opts; retryAfter := None; reason := None |},
       st)
  | Some entry =>
      if isBlocked now (blockedUntil entry) then
        ({| allowed := false; remaining := 0;
            resetTime := default 0 (blockedUntil entry);
            retryAfter :=
              Some (calculateRetryAfter now (default 0 (blockedUntil entry)));
            reason := Some "Rate limit exceeded" |},
         st)
      else if isWindowExpired now (firstAttempt entry) (windowMs opts) then
        ({| allowed := true; remaining := maxAttempts opts - 1;
            resetTime := now + windowMs opts; retryAfter := None; reason := None |},
         st)
      else if bool_decide (attempts entry >= maxAttempts opts) then
        let blockedUntil' := now + blockDurationMs opts in
        let st1 :=
          saveRateLimitEntry now key
            {| attempts := attempts entry;
               firstAttempt := firstAttempt entry;
               lastAttempt := lastAttempt entry;
               blockedUntil := Some blockedUntil';
               successfulAttempts := successfulAttempts entry;
               entry_failedAttempts := entry_failedAttempts entry |}
            (blockDurationMs opts) st in
        let st2 := sendAlert now identifier (attempts entry) context st1 in
        ({| allowed := false; remaining := 0; resetTime := blockedUntil';
            retryAfter := Some (blockDurationMs opts);
            reason := Some "Rate limit exceeded" |},
         st2)
      else
        ({| allowed := true;
            remaining := calculateRemainingAttempts (attempts entry) (maxAttempts opts);
            resetTime := firstAttempt entry + windowMs opts;
            retryAfter := None; reason := None |},
         st)
  end.

(** [userId?: string]; [if (userId)] is JavaScript truthiness. *)
Definition checkRateLimit (now : Z) (identifier : string) (context : RateLimitContext)
    (uid : option string) (st : Store) : RateLimitResult * Store :=
  match checkIPSecurity now identifier context with
  | Some ipSecurityResult => (ipSecurityResult, st)
  | None =>
      match truthy uid with
      | Some u =>
          match checkBruteForceProtection now u context st with
          | (Some bruteForceResult, st') => (bruteForceResult, st')
          | (None, st') => checkRateLimitEntry now identifier context st'
          end
      | None => checkRateLimitEntry now identifier context st
      end
  end.

Definition recordRateLimitAttempt (now : Z) (identifier : string)
    (context : RateLimitContext) (success : bool) (st : Store) : Store :=
  let opts := options context in
  if success && skipSuccessfulRequests opts then st
  else if negb success && skipFailedRequests opts then st
  else
    let key := keyGenerator opts identifier in
    let ttl := Z.max (windowMs opts) (blockDurationMs opts) in
    (incrementAttempts now key ttl st).2.

Definition recordBruteForceAttempt (now : Z) (uid : string)
    (context : RateLimitContext) (success : bool) (st : Store) : Store :=
  let opts := options context in
  if negb (enabled (bruteForce opts)) then st
  else if success then
    if resetCountOnSuccess (bruteForce opts) then clearBruteForceEntry uid st
    else st
  else (incrementFailedAttempts now uid (lockoutDurationMs (bruteForce opts)) st).2.

Definition recordAttempt (now : Z) (identifier : string) (context : RateLimitContext)
    (success : bool) (uid : option string) (st : Store) : Store :=
  let st1 := recordRateLimitAttempt now identifier context success st in
  match truthy uid with
  | Some u => recordBruteForceAttempt now u context success st1
  | None => st1
  end.

(** *** utils/managementFunctions.ts *)

Definition unlockUser (uid : string) (st : Store) : Store :=
  clearBruteForceEntry uid st.

Definition unlockIP (identifier : string) (context : RateLimitContext) (st : Store)
  : Store :=
  clearRateLimitEntry (keyGenerator (options context) identifier) st.

Definition getRateLimitStatus (identifier : string) (context : RateLimitContext)
    (uid : option string) (st : Store)
  : option RateLimitEntry * option BruteForceEntry :=
  (getRateLimitEntry (keyGenerator (options context) identifier) st,
   truthy uid ≫= fun u => getBruteForceEntry u st).

(** *** The operations as a request handler runs them: the event loop has
    run the due timers before the handler's code. *)

Definition checkRateLimitAt (now : Z) (identifier : string)
    (context : RateLimitContext) (uid : option string) (st : Store)
  : RateLimitResult * Store :=
  checkRateLimit now identifier context uid (runTimers now st).

Definition recordAttemptAt (now : Z) (identifier : string)
    (context : RateLimitContext) (success : bool) (uid : option string)
    (st : Store) : Store :=
  recordAttempt now identifier context success uid (runTimers now st).

(** The failed-attempt count the store holds for an account: none is zero. *)
Definition failedAttemptsOf (uid : string) (st : Store) : Z :=
  default 0 (failedAttempts <$> bruteForceEntries st !! uid).

(** A run of failed attempts for one account, each with its instant and
    the identifier it came from. *)
Definition recordFailures (context : RateLimitContext) (uid : string)
    (failures : list (Z * string)) (st : Store) : Store :=
  foldl (fun st a => recordAttemptAt a.1 a.2 context false (Some uid) st)
        st failures.

(** No pending timer of the account [uid] is due by the instant [t]. *)
Definition noLockoutTimerDue (uid : string) (t : Z) (st : Store) : Prop :=
  Forall (fun tm => tm.2 = uid -> t < tm.1) (bruteForceTimers st).

(** The account has [c] failed attempts on record, no lock, and no timer
    that fires by [t]. *)
Definition counted (uid : string) (t : Z) (c : Z) (st : Store) : Prop :=
  noLockoutTimerDue uid t st /\
  failedAttemptsOf uid st = c /\
  bruteForceEntries st !! uid ≫= lockedUntil = None /\
  (0 < c -> is_Some (bruteForceEntries st !! uid)).

End RateLimit.

(** ** An instance on which the definitions run

    [sampleLibs] understands the timespans [parseExpiry] accepts, on which
    the ms package returns the same number of milliseconds, and tags
    a fingerprint instead of hashing it. It serves the concrete runs only;
    every general statement below holds for any [ExternalLibs]. *)
Definition sampleLibs : ExternalLibs :=
  {| ms := fun s => match parseExpiry s with Ok z => Some z | Throw _ => None end;
     sha256_hex := fun s => "sha256:" +:+ s;
     sha256_hex_nonempty := fun s (Heq : "sha256:" +:+ s = "") =>
       eq_ind ("sha256:" +:+ s)
              (fun t => match t with EmptyString => False | String _ _ => True end)
              I "" Heq |}.

Definition sampleConfig : TokenConfig :=
  mkTokenConfig "access-secret" "refresh-secret" (Some "15m") (Some "7d").

Definition sampleUser : User := mkUser (UStr "u1") (Some "u1@example.org").

Definition device (fp : string) : option DeviceInfo :=
  Some (mkDeviceInfo (Some fp) None None None).

(** ** Vocabulary of the statements *)

Section Vocabulary.
Context `{ExternalLibs}.

(** The configuration lets [generateTokenPair] sign and persist: both
    secrets are set, the ms package reads the access expiry as [m]
    milliseconds and [parseExpiry] reads the refresh expiry as [expiry]. *)
Definition canIssue (context : AuthContext) (m expiry : Z) : Prop :=
  accessTokenSecret (config context) <> "" /\
  refreshTokenSecret (config context) <> "" /\
  accessTokenExpiry (config context) <> "" /\
  ms (accessTokenExpiry (config context)) = Some m /\
  parseExpiry (refreshTokenExpiry (config context)) = Ok expiry.

(** The two tokens [generateTokenPair] returns in that case. *)
Definition issuedAccessToken (e : Env) (user : User) (context : AuthContext) (m : Z)
  : Token :=
  Signed (accessTokenSecret (config context))
    {| c_userId := user_id user; c_email := user_email user;
       c_type := Some "access"; c_jti := None; c_deviceHash := None |}
    (e_now e `div` 1000) (Some (e_now e `div` 1000 + m `div` 1000)).

Definition issuedRefreshToken (e : Env) (user : User) (context : AuthContext)
    (deviceInfo : option DeviceInfo) (m : Z) : Token :=
  Signed (refreshTokenSecret (config context))
    {| c_userId := user_id user; c_email := None;
       c_type := Some "refresh"; c_jti := Some (e_jti e);
       c_deviceHash := payloadDeviceHash context deviceInfo |}
    (e_now e `div` 1000) (Some (e_now e `div` 1000 + m `div` 1000)).

(** The store holds a record for [tok] that is marked used. *)
Definition usedRecord (tok : Token) (st : MemoryStorage) : Prop :=
  exists ref d, tokens st !! tok = Some ref /\ heap st !! ref = Some d /\
                isUsed d = true.

(** No stored record belongs to [uid]. *)
Definition noRecordOf (uid : UserId) (st : MemoryStorage) : Prop :=
  forall tok ref, tokens st !! tok = Some ref -> ~ ownedBy (heap st) uid ref.

(** The [exp] claim of a token. *)
Definition tokenExp (t : Token) : option Z :=
  match t with Signed _ _ _ exp => exp | Garbage _ => None end.

(** The device check as [performSecurityChecks] gates it. *)
Definition gatedDeviceCheck (context : AuthContext) (decoded : JwtPayload)
    (deviceInfo : option DeviceInfo) : Result unit :=
  if enableDeviceFingerprinting (securityOptions context)
  then checkDeviceFingerprint decoded deviceInfo
  else Ok tt.


(** The object at [ref] is marked used. *)
Definition usedAt (st : MemoryStorage) (ref : nat) : Prop :=
  exists d, heap st !! ref = Some d /\ isUsed d = true.



End Vocabulary.

(** ** The token library as its callers drive it

    [Request] lists the operations a caller performs on one store:
    [generateTokenPair], [refreshTokens] and the three functions of
    core/tokenInvalidation.ts. [perform] runs one and keeps the store it
    leaves, whether the call returned or threw. *)

Inductive Request : Type :=
  | Issue (user : User) (deviceInfo : option DeviceInfo)
  | Refresh (refreshToken : Token) (deviceInfo : option DeviceInfo)
  | LogoutUser (uid : UserId)
  | LogoutDevice (refreshToken : Token)
  | CleanupExpired.

Section Api.
Context `{ExternalLibs}.

Definition perform (context : AuthContext) (e : Env) (r : Request)
    (st : MemoryStorage) : MemoryStorage :=
  match r with
  | Issue user deviceInfo => (generateTokenPair e user context deviceInfo st).2
  | Refresh rt deviceInfo => (refreshTokens e rt context deviceInfo st).2
  | LogoutUser uid => (logoutUser uid st).2
  | LogoutDevice rt => (logoutDevice rt st).2
  | CleanupExpired => (cleanupExpiredTokens (e_now e) st).2
  end.

Definition performAll (context : AuthContext) (requests : list (Env * Request))
    (st : MemoryStorage) : MemoryStorage :=
  foldl (fun st r => perform context r.1 r.2 st) st requests.

(** The subject a token string names, if it is a signed token. *)
Definition tokenSubject (t : Token) : option UserId := c_userId <$> tokenClaims t.

(** Every entry of the map refers to a live object, filed under its own
    token, whose owner is the subject of that token. *)
Definition storeOk (st : MemoryStorage) : Prop :=
  forall tok ref, tokens st !! tok = Some ref ->
    exists d, heap st !! ref = Some d /\ token d = tok /\
              tokenSubject tok = Some (userId d).

(** The outcome of [refreshTokens] once the token has verified and its
    entry [ref] has been found, by cases on the stored object. *)
Definition refreshOutcome (e : Env) (rt : Token) (context : AuthContext)
    (deviceInfo : option DeviceInfo) (st : MemoryStorage) (decoded : JwtPayload)
    (stored : option RefreshTokenData) : Result TokenPair * MemoryStorage :=
  match stored with
  | Some d =>
      if enableConcurrentUsageDetection (securityOptions context) && isUsed d then
        (Throw ConcurrentUsageDetected, (invalidateAllUserTokens (userId d) st).2)
      else
        match gatedDeviceCheck context decoded deviceInfo with
        | Throw err => (Throw err, st)
        | Ok _ =>
            if decide (expiresAt d < e_now e) then
              (Throw RefreshTokenExpired, (invalidateRefreshToken (token d) st).2)
            else
              generateTokenPair e (refreshUser decoded) context deviceInfo
                                (rotateToken rt context st).2
        end
  | None =>
      if enableConcurrentUsageDetection (securityOptions context) then
        (Throw DanglingReference, st)
      else
        match gatedDeviceCheck context decoded deviceInfo with
        | Throw err => (Throw err, st)
        | Ok _ => (Throw DanglingReference, st)
        end
  end.

End Api.

(** * Concrete runs *)

Section Runs.
#[local] Existing Instance sampleLibs.

(** A context with the default options: rotation and concurrent-usage
    detection on, device fingerprinting off. *)
Definition defaultContext : AuthContext :=
  createAuthContext sampleConfig noSecurityOptions.

(** Device fingerprinting switched on. *)
Definition bindingContext : AuthContext :=
  createAuthContext sampleConfig
    (mkSecurityOptions None None (Some true) None None).

(** Rotation on, concurrent-usage detection switched off. *)
Definition noDetectionContext : AuthContext :=
  createAuthContext sampleConfig
    (mkSecurityOptions (Some true) (Some false) None None None).

Definition pairOf (r : Result TokenPair * MemoryStorage) : TokenPair :=
  match r.1 with
  | Ok p => p
  | Throw _ => mkTokenPair (Garbage "") (Garbage "")
  end.

(** Issuance at instant 1000000 ms into an empty store. *)
Definition issueIn (context : AuthContext) (deviceInfo : option DeviceInfo)
  : Result TokenPair * MemoryStorage :=
  generateTokenPair (mkEnv 1000000 "jti-0") sampleUser context deviceInfo
                    createMemoryStorage.

(** A record that is used, expired since instant 10, and bound to
    "device-A". *)
Definition staleToken : Token :=
  Signed "refresh-secret"
    {| c_userId := UStr "u1"; c_email := None; c_type := Some "refresh";
       c_jti := Some "jti-0"; c_deviceHash := Some "sha256:device-A" |}
    0 (Some 900).

Definition staleRecord : RefreshTokenData :=
  {| rec_id := "1"; userId := UStr "u1"; token := staleToken;
     deviceFingerprint := Some "device-A"; ipAddress := None; userAgent := None;
     isUsed := true; createdAt := 0; expiresAt := 10 |}.

Definition staleStore : MemoryStorage :=
  {| tokens := {[ staleToken := 0%nat ]}; heap := [staleRecord]; idCounter := 2 |}.

Definition staleDecoded : JwtPayload :=
  mkPayload
    {| c_userId := UStr "u1"; c_email := None; c_type := Some "refresh";
       c_jti := Some "jti-0"; c_deviceHash := Some "sha256:device-A" |}
    0 (Some 900).

Definition envA : Env := mkEnv 1001000 "jti-A".
Definition envB : Env := mkEnv 1002000 "jti-B".

(** The token issued under the default context, and its first refresh. *)
Definition issuedDefault : Result TokenPair * MemoryStorage :=
  issueIn defaultContext None.
Definition rtDefault : Token := refreshToken (pairOf issuedDefault).
Definition firstRefresh : Result TokenPair * MemoryStorage :=
  refreshTokens envA rtDefault defaultContext None issuedDefault.2.

(** The token issued to "device-A" under device binding. *)
Definition issuedBound : Result TokenPair * MemoryStorage :=
  issueIn bindingContext (device "device-A").
Definition rtBound : Token := refreshToken (pairOf issuedBound).

(** Two calls of [refreshTokens] on the token issued to "u1". *)
Definition twoCalls : list RefreshCall :=
  [mkRefreshCall rtDefault None NotStarted; mkRefreshCall rtDefault None NotStarted].

(** A context whose refresh expiry is not of the format. *)
Definition malformedConfig : TokenConfig :=
  mkTokenConfig "access-secret" "refresh-secret" (Some "15m") (Some "7 days").

(** The two calls take turns at every [await]. *)
Definition alternating : list (nat * Env) :=
  [(0%nat, envA); (1%nat, envB); (0%nat, envA); (1%nat, envB);
   (0%nat, envA); (1%nat, envB); (0%nat, envA); (1%nat, envB);
   (0%nat, envA); (1%nat, envB)].

(** The first call runs to its end before the second starts. *)
Definition oneAfterTheOther : list (nat * Env) :=
  [(0%nat, envA); (0%nat, envA); (0%nat, envA); (0%nat, envA); (0%nat, envA);
   (1%nat, envB); (1%nat, envB); (1%nat, envB); (1%nat, envB); (1%nat, envB)].

End Runs.

Section MoreRuns.
#[local] Existing Instance sampleLibs.

(** One secret for both kinds of token. *)
Definition sharedSecretContext : AuthContext :=
  createAuthContext (mkTokenConfig "secret" "secret" (Some "15m") (Some "7d"))
                    noSecurityOptions.

Definition issuedShared : Result TokenPair * MemoryStorage :=
  issueIn sharedSecretContext None.
Definition accessShared : Token := accessToken (pairOf issuedShared).

Definition sharedDecoded : JwtPayload :=
  mkPayload
    {| c_userId := UStr "u1"; c_email := Some "u1@example.org";
       c_type := Some "access"; c_jti := None; c_deviceHash := None |}
    1000 (Some 1900).

(** Records that expire after one minute, tokens signed for one hour. *)
Definition shortRecordContext : AuthContext :=
  createAuthContext
    (mkTokenConfig "access-secret" "refresh-secret" (Some "1h") (Some "1m"))
    noSecurityOptions.

Definition issuedShort : Result TokenPair * MemoryStorage :=
  issueIn shortRecordContext None.
Definition rtShort : Token := refreshToken (pairOf issuedShort).

(** 100 seconds after the issuance. *)
Definition envLate : Env := mkEnv 1100000 "jti-L".

(** Token rotation switched off. *)
Definition noRotationContext : AuthContext :=
  createAuthContext sampleConfig
    (mkSecurityOptions (Some false) None None None None).

Definition issuedNoRotation : Result TokenPair * MemoryStorage :=
  issueIn noRotationContext None.
Definition rtNoRotation : Token := refreshToken (pairOf issuedNoRotation).
Definition refreshedNoRotation : Result TokenPair * MemoryStorage :=
  refreshTokens envA rtNoRotation noRotationContext None issuedNoRotation.2.

(** The token of [issuedDefault] presented a second time. *)
Definition replayed : Result TokenPair * MemoryStorage :=
  refreshTokens envB rtDefault defaultContext None firstRefresh.2.

End MoreRuns.

Module RateLimitRuns.
Import RateLimit.

(** Three attempts per window of one second, blocks of five seconds;
    everything else by default. *)
Definition windowContext : RateLimitContext :=
  createRateLimitContext
    (mkRateLimitInput 3 1000 5000 None None None None None None None None).

Definition address : string := "1.2.3.4".

(** One failed attempt at instant 0. *)
Definition afterFirstAttempt : Store :=
  recordAttemptAt 0 address windowContext false None emptyStore.

(** Four more failed attempts, all after the window of the first has
    expired (instant 1000) and within 250 ms of each other. *)
Definition burst (st : Store) : Store :=
  foldl (fun st t => recordAttemptAt t address windowContext false None st)
        st [1500; 1600; 1700; 1750].

(** Brute-force protection with the values of the specification's example:
    ten failed attempts, reset on success, one hour of lockout. *)
Definition lockoutInput (allowList : option (list string)) : RateLimitInput :=
  mkRateLimitInput 5 60000 60000 None None None None allowList None
    (Some (mkBruteForceInput true 10 3600000 (Some true))) None.

Definition lockoutContext : RateLimitContext :=
  createRateLimitContext (lockoutInput None).

(** The same, with the address "10.0.0.1" on the whitelist. *)
Definition whitelistContext : RateLimitContext :=
  createRateLimitContext (lockoutInput (Some ["10.0.0.1"])).

(** Ten failed attempts, one per millisecond, from "10.0.0.1". *)
Definition tenFailures : list (Z * string) :=
  [(0, "10.0.0.1"); (1, "10.0.0.1"); (2, "10.0.0.1"); (3, "10.0.0.1");
   (4, "10.0.0.1"); (5, "10.0.0.1"); (6, "10.0.0.1"); (7, "10.0.0.1");
   (8, "10.0.0.1"); (9, "10.0.0.1")].

End RateLimitRuns.

Module RateLimitScenarios.
Import RateLimit.

(** A run of attempts from one identifier, all with the same outcome and
    for the same account, at the given instants. *)
Definition recordAttempts (context : RateLimitContext) (identifier : string)
    (success : bool) (uid : option string) (times : list Z) (st : Store) : Store :=
  foldl (fun st t => recordAttemptAt t identifier context success uid st) st times.

(** No pending timer of the rate-limit key [key] is due by the instant [t]. *)
Definition noRateTimerDue (key : string) (t : Z) (st : Store) : Prop :=
  Forall (fun tm => tm.2 = key -> t < tm.1) (rateLimitTimers st).

(** The key has an entry that counts [c] attempts since [first], is not
    blocked, and will not be deleted by the instant [t]. *)
Definition tracked (key : string) (t first c : Z) (st : Store) : Prop :=
  noRateTimerDue key t st /\
  exists entry, rateLimitEntries st !! key = Some entry /\
                attempts entry = c /\ firstAttempt entry = first /\
                blockedUntil entry = None.

(** The attempt is one [recordRateLimitAttempt] counts. *)
Definition notSkipped (context : RateLimitContext) (success : bool) : Prop :=
  success && skipSuccessfulRequests (options context) = false /\
  negb success && skipFailedRequests (options context) = false.

End RateLimitScenarios.

Module RateLimitMoreRuns.
Import RateLimit RateLimitRuns RateLimitScenarios.

(** Three failed attempts at 0, 100 and 200 ms, then the check at 300 ms
    that starts the block. *)
Definition blockedStore : Store :=
  (checkRateLimitAt 300 address windowContext None
     (recordAttempts windowContext address false None [0; 100; 200] emptyStore)).2.

Definition blockedEntry : RateLimitEntry :=
  {| attempts := 3; firstAttempt := 0; lastAttempt := 200;
     blockedUntil := Some 5300; successfulAttempts := None;
     entry_failedAttempts := None |}.

(** Nine failed attempts at 1 .. 9 ms from "10.0.0.1". *)
Definition nineFailures : list (Z * string) :=
  [(1, "10.0.0.1"); (2, "10.0.0.1"); (3, "10.0.0.1"); (4, "10.0.0.1");
   (5, "10.0.0.1"); (6, "10.0.0.1"); (7, "10.0.0.1"); (8, "10.0.0.1");
   (9, "10.0.0.1")].

End RateLimitMoreRuns.
(** * Properties *)

(** ** The async combinators *)

Lemma abind_ok {S A B} (m : Async S A) (k : A -> Async S B) s a s' :
  m s = (Ok a, s') -> abind m k s = k a s'.
Proof. intros Hm. unfold abind. by rewrite Hm. Qed.

Lemma abind_throw {S A B} (m : Async S A) (k : A -> Async S B) s err s' :
  m s = (Throw err, s') -> abind m k s = (Throw err, s').
Proof. intros Hm. unfold abind. by rewrite Hm. Qed.

Lemma abind_inv_ok {S A B} (m : Async S A) (k : A -> Async S B) s b s2 :
  abind m k s = (Ok b, s2) ->
  exists a s1, m s = (Ok a, s1) /\ k a s1 = (Ok b, s2).
Proof.
  unfold abind. destruct (m s) as [[a|err] s1]; intros Hk; [eauto | discriminate].
Qed.

Lemma alift_inv_ok {S A} (r : Result A) (s : S) a s' :
  alift r s = (Ok a, s') -> r = Ok a /\ s' = s.
Proof. unfold alift. intros Heq. injection Heq as Hr Hs. by subst. Qed.

(** ** parseExpiry against the format of the specification *)

Lemma units_Some_iff c :
  is_Some (units c) <-> (c = "s" \/ c = "m" \/ c = "h" \/ c = "d")%char.
Proof.
  unfold units. repeat case_decide; subst; split; intros Hc;
    try (by eexists); try tauto; try (by destruct Hc as [? [=]]);
    destruct Hc as [?|[?|[?|?]]]; congruence.
Qed.

Lemma units_not_digit c : is_Some (units c) -> is_digit c = false.
Proof.
  intros Hc. apply units_Some_iff in Hc.
  destruct Hc as [-> | [-> | [-> | ->]]]; reflexivity.
Qed.

Lemma match_digits_unit_Some s amount unit :
  match_digits_unit s = Some (amount, unit) <->
  s = amount +:+ String unit EmptyString /\ all_digits amount = true /\
  is_Some (units unit).
Proof.
  revert amount unit. induction s as [|c rest IH]; intros amount unit.
  - simpl. split; [discriminate|]. intros [Hs _]. by destruct amount.
  - destruct rest as [|c' rest'].
    + simpl. split.
      * destruct (units c) eqn:Hu; [|discriminate]. intros [= <- <-].
        simpl. split_and!; [done|done|by rewrite Hu].
      * intros (Hs & Hd & Hu). destruct amount as [|a [|? ?]]; simpl in Hs.
        -- injection Hs as ->. destruct Hu as [u ->]. done.
        -- discriminate.
        -- discriminate.
    + change (match_digits_unit (String c (String c' rest')))
        with (if is_digit c then
                match match_digits_unit (String c' rest') with
                | Some (amount, unit) => Some (String c amount, unit)
                | None => None
                end
              else None).
      split.
      * destruct (is_digit c) eqn:Hc; [|discriminate].
        destruct (match_digits_unit (String c' rest')) as [[a u]|] eqn:Hm;
          [|discriminate].
        intros [= <- <-]. destruct (proj1 (IH a u) eq_refl) as (Hs & Hd & Hu).
        simpl. rewrite Hc, Hd. split_and!; [by rewrite Hs|done|done].
      * intros (Hs & Hd & Hu). destruct amount as [|a amount']; simpl in Hs.
        -- discriminate.
        -- injection Hs as -> Hrest. simpl in Hd.
           apply andb_true_iff in Hd as [Hc Hd]. rewrite Hc.
           assert (match_digits_unit (String c' rest') = Some (amount', unit))
             as -> by (apply IH; done).
           done.
Qed.

Lemma match_expiry_Some_iff s :
  is_Some (match_expiry s) <-> expiry_well_formed s.
Proof.
  unfold match_expiry, expiry_well_formed. split.
  - destruct (match_digits_unit s) as [[[|c amount] unit]|] eqn:Hm;
      intros [x Hx]; try discriminate.
    apply match_digits_unit_Some in Hm as (Hs & Hd & Hu).
    exists (String c amount), unit. split_and!; [done|done|done|].
    by apply units_Some_iff.
  - intros (amount & unit & Hs & Hne & Hd & Hu).
    apply units_Some_iff in Hu.
    assert (match_digits_unit s = Some (amount, unit)) as ->
      by (apply match_digits_unit_Some; done).
    destruct amount; [done | by eexists].
Qed.

(** [parseExpiry] accepts exactly the texts of the stated format. *)
Lemma parseExpiry_ok_iff s :
  isOk (parseExpiry s) = true <-> expiry_well_formed s.
Proof.
  rewrite <- match_expiry_Some_iff. unfold parseExpiry, match_expiry.
  destruct (match_digits_unit s) as [[[|c amount] unit]|] eqn:Hm; simpl;
    try (split; [discriminate | by intros [? [=]]]).
  apply match_digits_unit_Some in Hm as (_ & _ & [u ->]). simpl.
  split; [by eexists | done].
Qed.

Lemma parseExpiry_malformed s :
  ~ expiry_well_formed s -> parseExpiry s = Throw (InvalidExpiryFormat s).
Proof.
  intros Hs. rewrite <- match_expiry_Some_iff in Hs.
  unfold parseExpiry. destruct (match_expiry s) as [[amount unit]|] eqn:Hm.
  - exfalso. apply Hs. by eexists.
  - done.
Qed.

Section CoreProperties.
Context `{ExternalLibs}.

(** ** Verification and the kind discriminator *)

Lemma jwt_verify_ok_claims now tok secret decoded :
  jwt_verify now tok secret = Ok decoded ->
  tokenClaims tok = Some (p_claims decoded).
Proof.
  destruct tok as [key claims iat exp|s]; simpl; [|discriminate].
  repeat case_decide; try discriminate; destruct exp; repeat case_decide;
    try discriminate; by intros [= <-].
Qed.


(** The untyped variant of the module accepts whatever validates. *)
Lemma verifyRefreshToken_untyped_ignores_kind (e : Env) (tok : Token)
    (context : AuthContext) (decoded : JwtPayload) :
  jwt_verify (e_now e) tok (refreshTokenSecret (config context)) = Ok decoded ->
  verifyRefreshToken_untyped e tok context = Ok decoded.
Proof. intros Hv. unfold verifyRefreshToken_untyped. by rewrite Hv. Qed.

(** ** Signing and issuance *)

Lemma jwt_sign_text_ok now payload secret text m :
  secret <> "" -> text <> "" -> ms text = Some m ->
  jwt_sign now payload secret (ExpiresInText text)
  = Ok (Signed secret payload (now `div` 1000)
               (Some (now `div` 1000 + m `div` 1000))).
Proof.
  intros Hs Ht Hm. unfold jwt_sign, timespan.
  rewrite decide_False by done. rewrite decide_False by congruence.
  by rewrite Hm.
Qed.

Lemma jwt_sign_text_inv now payload secret text tok :
  jwt_sign now payload secret (ExpiresInText text) = Ok tok ->
  secret <> "" /\ text <> "" /\
  exists m, ms text = Some m /\
    tok = Signed secret payload (now `div` 1000)
                 (Some (now `div` 1000 + m `div` 1000)).
Proof.
  unfold jwt_sign, timespan. repeat case_decide; try discriminate.
  destruct (ms text) as [m|] eqn:Hm; [|discriminate].
  intros [= <-]. split_and!; [done|congruence|eauto].
Qed.

Lemma generateTokenPair_ok e user context deviceInfo st m expiry :
  canIssue context m expiry ->
  generateTokenPair e user context deviceInfo st
  = (Ok (mkTokenPair (issuedAccessToken e user context m)
                     (issuedRefreshToken e user context deviceInfo m)),
     (saveRefreshToken
        (newRefreshTokenData e user
           (issuedRefreshToken e user context deviceInfo m) deviceInfo expiry) st).2).
Proof.
  intros (Ha & Hr & Ht & Hm & Hp).
  unfold generateTokenPair, generateAccessToken, generateRefreshToken.
  unfold abind, alift. cbv zeta.
  rewrite !(jwt_sign_text_ok _ _ _ _ m) by done. by rewrite Hp.
Qed.

Lemma generateTokenPair_inv e user context deviceInfo st pair st1 :
  generateTokenPair e user context deviceInfo st = (Ok pair, st1) ->
  exists m expiry,
    canIssue context m expiry /\
    pair = mkTokenPair (issuedAccessToken e user context m)
                       (issuedRefreshToken e user context deviceInfo m) /\
    st1 = (saveRefreshToken
             (newRefreshTokenData e user
                (issuedRefreshToken e user context deviceInfo m) deviceInfo expiry)
             st).2.
Proof.
  intros Hgen.
  assert (exists m expiry, canIssue context m expiry) as (m & expiry & Hcan).
  { revert Hgen.
    unfold generateTokenPair, generateAccessToken, generateRefreshToken.
    unfold abind, alift. cbv zeta.
    destruct (jwt_sign _ _ (accessTokenSecret _) _) as [at_|err] eqn:Hat;
      [|discriminate].
    destruct (jwt_sign _ _ (refreshTokenSecret _) _) as [rt|err] eqn:Hrt;
      [|discriminate].
    destruct (parseExpiry _) as [expiry|err] eqn:Hp; [|discriminate].
    intros _.
    apply jwt_sign_text_inv in Hat as (Ha & Ht & m & Hm & _).
    apply jwt_sign_text_inv in Hrt as (Hr & _).
    exists m, expiry. by split_and!. }
  exists m, expiry. split; [done|].
  rewrite (generateTokenPair_ok _ _ _ _ _ m expiry Hcan) in Hgen.
  split; congruence.
Qed.

Lemma generateTokenPair_throw_store e user context deviceInfo st err st1 :
  generateTokenPair e user context deviceInfo st = (Throw err, st1) -> st1 = st.
Proof.
  unfold generateTokenPair, abind, alift.
  destruct (generateAccessToken _ _ _); [|by intros [= _ <-]].
  destruct (generateRefreshToken _ _ _ _); [|by intros [= _ <-]].
  destruct (parseExpiry _); [|by intros [= _ <-]].
  discriminate.
Qed.

(** ** The store after the storage operations *)

Lemma save_lookup_new data st :
  tokens (saveRefreshToken data st).2 !! token data = Some (length (heap st)) /\
  exists d, heap (saveRefreshToken data st).2 !! length (heap st) = Some d /\
    userId d = userId data /\ token d = token data /\ isUsed d = isUsed data /\
    expiresAt d = expiresAt data.
Proof.
  simpl. split; [apply lookup_insert_eq|].
  eexists. split.
  - rewrite lookup_app_r by lia. rewrite Nat.sub_diag. reflexivity.
  - by split_and!.
Qed.

Lemma save_lookup_old data st tok :
  tok <> token data ->
  tokens (saveRefreshToken data st).2 !! tok = tokens st !! tok.
Proof. intros Hne. simpl. by rewrite lookup_insert_ne. Qed.

Lemma save_heap_old data st ref d :
  heap st !! ref = Some d -> heap (saveRefreshToken data st).2 !! ref = Some d.
Proof.
  intros Hd. simpl. rewrite lookup_app_l; [done|]. by eapply lookup_lt_Some.
Qed.

Lemma mark_tokens tok st tok' :
  tokens (markTokenAsUsed tok st).2 !! tok' = tokens st !! tok'.
Proof.
  unfold markTokenAsUsed. destruct (tokens st !! tok) as [ref|] eqn:Hr; [|done].
  simpl. destruct (decide (tok = tok')) as [<-|Hne].
  - by rewrite lookup_insert_eq.
  - by rewrite lookup_insert_ne.
Qed.

Lemma mark_heap_target tok st ref d :
  tokens st !! tok = Some ref -> heap st !! ref = Some d ->
  heap (markTokenAsUsed tok st).2 !! ref = Some (setUsed d).
Proof.
  intros Hr Hd. unfold markTokenAsUsed. rewrite Hr. simpl.
  by rewrite list_lookup_alter_eq, Hd.
Qed.

Lemma mark_heap_used tok st ref d :
  heap st !! ref = Some d -> isUsed d = true ->
  exists d', heap (markTokenAsUsed tok st).2 !! ref = Some d' /\ isUsed d' = true.
Proof.
  intros Hd Hu. unfold markTokenAsUsed.
  destruct (tokens st !! tok) as [ref'|]; [|eauto]. simpl.
  destruct (decide (ref' = ref)) as [->|Hne].
  - rewrite list_lookup_alter_eq, Hd. simpl. eauto.
  - rewrite list_lookup_alter_ne by done. eauto.
Qed.

Lemma invalidateAll_noRecordOf uid st :
  noRecordOf uid (invalidateAllUserTokens uid st).2.
Proof.
  intros tok ref. simpl. intros Hl.
  by apply map_lookup_filter_Some in Hl as [_ Hp].
Qed.

Lemma invalidateAll_keeps_others uid st tok ref :
  tokens st !! tok = Some ref -> ~ ownedBy (heap st) uid ref ->
  tokens (invalidateAllUserTokens uid st).2 !! tok = Some ref.
Proof. intros Hl Hp. simpl. by apply map_lookup_filter_Some. Qed.

(** ** refreshTokens on a stored record *)

Lemma truthy_Some_inv (s : option string) x : truthy s = Some x -> s = Some x /\ x <> "".
Proof.
  destruct s as [y|]; simpl; [|discriminate].
  case_decide; [discriminate|]. by intros [= ->].
Qed.

Lemma truthy_Some_intro (x : string) : x <> "" -> truthy (Some x) = Some x.
Proof. intros Hx. simpl. by rewrite decide_False. Qed.

Lemma rotateToken_ok tok context st :
  (rotateToken tok context st).1 = Ok tt.
Proof.
  unfold rotateToken. destruct (enableTokenRotation _); [|done].
  unfold markTokenAsUsed. by destruct (tokens st !! tok).
Qed.

Lemma refreshTokens_found e rt context deviceInfo st decoded ref d :
  verifyRefreshToken e rt context = Ok decoded ->
  tokens st !! rt = Some ref ->
  heap st !! ref = Some d ->
  refreshTokens e rt context deviceInfo st =
    if enableConcurrentUsageDetection (securityOptions context) && isUsed d then
      (Throw ConcurrentUsageDetected, (invalidateAllUserTokens (userId d) st).2)
    else
      match gatedDeviceCheck context decoded deviceInfo with
      | Throw err => (Throw err, st)
      | Ok _ =>
          if decide (expiresAt d < e_now e) then
            (Throw RefreshTokenExpired, (invalidateRefreshToken (token d) st).2)
          else
            generateTokenPair e (refreshUser decoded) context deviceInfo
                              (rotateToken rt context st).2
      end.
Proof.
  intros Hv Hr Hd.
  unfold refreshTokens, performSecurityChecks, checkConcurrentUsage,
    checkDeviceAndExpiry, checkTokenExpiry, gatedDeviceCheck.
  unfold abind at 1. unfold alift at 1. rewrite Hv.
  unfold abind at 1. unfold getRefreshToken. rewrite Hr.
  unfold abind at 1. unfold abind at 1.
  destruct (enableConcurrentUsageDetection _); simpl.
  - unfold abind at 1. unfold deref at 1. rewrite Hd.
    destruct (isUsed d); simpl.
    + reflexivity.
    + unfold aret at 1. unfold abind at 1.
      destruct (enableDeviceFingerprinting _).
      * unfold alift. destruct (checkDeviceFingerprint _ _) as [[]|err]; [|done].
        unfold abind at 1. unfold deref. rewrite Hd.
        case_decide; [done|]. unfold aret.
        pose proof (rotateToken_ok rt context st) as Hrot.
        unfold abind. destruct (rotateToken rt context st) as [r st']. simpl in Hrot.
        by subst r.
      * unfold aret at 1. unfold abind at 1. unfold deref. rewrite Hd.
        case_decide; [done|]. unfold aret.
        pose proof (rotateToken_ok rt context st) as Hrot.
        unfold abind. destruct (rotateToken rt context st) as [r st']. simpl in Hrot.
        by subst r.
  - unfold aret at 1. unfold abind at 1.
    destruct (enableDeviceFingerprinting _).
    * unfold alift. destruct (checkDeviceFingerprint _ _) as [[]|err]; [|done].
      unfold abind at 1. unfold deref. rewrite Hd.
      case_decide; [done|]. unfold aret.
      pose proof (rotateToken_ok rt context st) as Hrot.
      unfold abind. destruct (rotateToken rt context st) as [r st']. simpl in Hrot.
      by subst r.
    * unfold aret at 1. unfold abind at 1. unfold deref. rewrite Hd.
      case_decide; [done|]. unfold aret.
      pose proof (rotateToken_ok rt context st) as Hrot.
      unfold abind. destruct (rotateToken rt context st) as [r st']. simpl in Hrot.
      by subst r.
Qed.

(** ** Reuse detection *)

(** C3 (as amended). With concurrent-usage detection enabled, the security
    checks on a stored record that is marked used fail with
    "Concurrent token usage detected", whatever the expiry of the record and
    the presented device are, and afterwards the store holds no record of
    that record's user; the records of other users stay. *)
Theorem used_record_revokes_all_of_user (e : Env) (tokenData : nat)
    (decoded : JwtPayload) (context : AuthContext)
    (deviceInfo : option DeviceInfo) (st : MemoryStorage) (d : RefreshTokenData) :
  enableConcurrentUsageDetection (securityOptions context) = true ->
  heap st !! tokenData = Some d ->
  isUsed d = true ->
  exists st',
    performSecurityChecks e tokenData decoded context deviceInfo st
    = (Throw ConcurrentUsageDetected, st') /\
    noRecordOf (userId d) st' /\
    (forall tok ref, tokens st !! tok = Some ref ->
                     ~ ownedBy (heap st) (userId d) ref ->
                     tokens st' !! tok = Some ref).
Proof.
  intros Hdet Hd Hused.
  exists (invalidateAllUserTokens (userId d) st).2. split_and!.
  - unfold performSecurityChecks, checkConcurrentUsage. rewrite Hdet.
    unfold abind at 1. unfold abind at 1. unfold deref. rewrite Hd, Hused.
    reflexivity.
  - apply invalidateAll_noRecordOf.
  - intros tok ref. apply invalidateAll_keeps_others.
Qed.

(** ** Rotation *)

Lemma verifyRefreshToken_time_independent e1 e2 tok context decoded :
  verifyRefreshToken e1 tok context = Ok decoded ->
  isOk (verifyRefreshToken e2 tok context) = true ->
  verifyRefreshToken e2 tok context = Ok decoded.
Proof.
  unfold verifyRefreshToken, jwt_verify.
  destruct tok as [key claims iat exp|s]; [|discriminate].
  repeat case_decide; try discriminate; destruct exp as [x|];
    repeat case_decide; simpl in *; try discriminate; try done.
Qed.

Lemma refreshTokens_ok_inv e rt context deviceInfo st pair st1 :
  enableConcurrentUsageDetection (securityOptions context) = true ->
  refreshTokens e rt context deviceInfo st = (Ok pair, st1) ->
  exists decoded ref d,
    verifyRefreshToken e rt context = Ok decoded /\
    tokens st !! rt = Some ref /\ heap st !! ref = Some d /\
    generateTokenPair e (refreshUser decoded) context deviceInfo
                      (rotateToken rt context st).2 = (Ok pair, st1).
Proof.
  intros Hdet Hrun.
  destruct (verifyRefreshToken e rt context) as [decoded|err] eqn:Hv.
  2:{ unfold refreshTokens in Hrun. unfold abind at 1 in Hrun.
      unfold alift in Hrun. rewrite Hv in Hrun. discriminate. }
  destruct (tokens st !! rt) as [ref|] eqn:Hr.
  2:{ unfold refreshTokens in Hrun. unfold abind at 1 in Hrun.
      unfold alift in Hrun. rewrite Hv in Hrun.
      unfold abind at 1 in Hrun. unfold getRefreshToken in Hrun.
      rewrite Hr in Hrun. discriminate. }
  destruct (heap st !! ref) as [d|] eqn:Hd.
  2:{ unfold refreshTokens in Hrun. unfold abind at 1 in Hrun.
      unfold alift in Hrun. rewrite Hv in Hrun.
      unfold abind at 1 in Hrun. unfold getRefreshToken in Hrun.
      rewrite Hr in Hrun. unfold abind at 1 in Hrun.
      unfold performSecurityChecks, checkConcurrentUsage in Hrun.
      rewrite Hdet in Hrun. unfold abind at 1 in Hrun. unfold abind at 1 in Hrun.
      unfold deref in Hrun. rewrite Hd in Hrun. discriminate. }
  rewrite (refreshTokens_found _ _ _ _ _ decoded ref d) in Hrun by done.
  destruct (enableConcurrentUsageDetection _ && isUsed d); [discriminate|].
  destruct (gatedDeviceCheck _ _ _); [|discriminate].
  case_decide; [discriminate|]. eauto 10.
Qed.

(** C2 (as amended). With rotation and concurrent-usage detection both
    enabled, a successful [refreshTokens(rt)] that issues a token other than
    [rt] leaves the record of [rt] marked used; and in every later store
    that still holds this used record, a [refreshTokens(rt)] whose token
    still verifies fails with "Concurrent token usage detected" and removes
    the record. *)
Theorem rotated_token_is_rejected (e1 : Env) (rt : Token) (context : AuthContext)
    (deviceInfo1 : option DeviceInfo) (st : MemoryStorage)
    (pair : TokenPair) (st1 : MemoryStorage) :
  enableTokenRotation (securityOptions context) = true ->
  enableConcurrentUsageDetection (securityOptions context) = true ->
  refreshTokens e1 rt context deviceInfo1 st = (Ok pair, st1) ->
  Some (e_jti e1) <> tokenJti rt ->
  usedRecord rt st1 /\
  forall (e2 : Env) (deviceInfo2 : option DeviceInfo) (st2 : MemoryStorage),
    usedRecord rt st2 ->
    isOk (verifyRefreshToken e2 rt context) = true ->
    exists st3,
      refreshTokens e2 rt context deviceInfo2 st2
      = (Throw ConcurrentUsageDetected, st3) /\
      tokens st3 !! rt = None.
Proof.
  intros Hrot Hdet Hrun Hjti.
  destruct (refreshTokens_ok_inv _ _ _ _ _ _ _ Hdet Hrun)
    as (decoded & ref & d & Hv & Hr & Hd & Hgen).
  split.
  - destruct (generateTokenPair_inv _ _ _ _ _ _ _ Hgen)
      as (m & expiry & Hcan & _ & ->).
    unfold rotateToken. rewrite Hrot.
    exists ref, (setUsed d). split_and!.
    + etrans; [apply save_lookup_old|by rewrite mark_tokens].
      intros Heq. apply Hjti. by rewrite Heq.
    + apply save_heap_old. by apply mark_heap_target.
    + done.
  - intros e2 deviceInfo2 st2 (ref2 & d2 & Hr2 & Hd2 & Hu2) Hv2.
    pose proof (verifyRefreshToken_time_independent _ _ _ _ _ Hv Hv2) as Hv2'.
    rewrite (refreshTokens_found _ _ _ _ _ decoded ref2 d2) by done.
    rewrite Hdet, Hu2. simpl. eexists. split; [done|].
    apply map_lookup_filter_None. right. intros ref' Hr' Hp.
    apply Hp. rewrite Hr2 in Hr'. injection Hr' as <-.
    unfold ownedBy. simpl. by rewrite Hd2.
Qed.

(** ** Device binding *)

Lemma verify_issued_ok e0 e1 user context deviceInfo m expiry :
  canIssue context m expiry ->
  isOk (verifyRefreshToken e1 (issuedRefreshToken e0 user context deviceInfo m)
                           context) = true ->
  verifyRefreshToken e1 (issuedRefreshToken e0 user context deviceInfo m) context
  = Ok (mkPayload
          {| c_userId := user_id user; c_email := None;
             c_type := Some "refresh"; c_jti := Some (e_jti e0);
             c_deviceHash := payloadDeviceHash context deviceInfo |}
          (e_now e0 `div` 1000)
          (Some (e_now e0 `div` 1000 + m `div` 1000))).
Proof.
  intros (_ & Hr & _) Hok. revert Hok.
  unfold verifyRefreshToken, issuedRefreshToken, jwt_verify.
  rewrite decide_False by done. rewrite decide_True by done.
  case_decide; [discriminate|]. done.
Qed.

Lemma payloadDeviceHash_bound context deviceInfo F :
  enableDeviceFingerprinting (securityOptions context) = true ->
  truthy (deviceInfo ≫= fingerprint) = Some F ->
  payloadDeviceHash context deviceInfo = Some (generateDeviceHash F) /\
  truthy (payloadDeviceHash context deviceInfo) = Some (generateDeviceHash F).
Proof.
  intros Hfp HF. unfold payloadDeviceHash. rewrite Hfp, HF. simpl.
  split; [done|]. rewrite decide_False; [done|]. apply sha256_hex_nonempty.
Qed.

(** The check compares only when the token carries a hash and the caller
    presents a non-empty fingerprint. *)
Lemma checkDeviceFingerprint_skipped decoded deviceInfo :
  truthy (c_deviceHash (p_claims decoded)) = None \/
  truthy (deviceInfo ≫= fingerprint) = None ->
  checkDeviceFingerprint decoded deviceInfo = Ok tt.
Proof.
  unfold checkDeviceFingerprint. intros [-> | ->]; [done|].
  by destruct (truthy (c_deviceHash _)).
Qed.

(** The outcome of refreshing a token right in the store its issuance
    left, while the token still verifies. *)
Lemma refresh_after_issue e0 e1 user context deviceInfo0 deviceInfo1 st m expiry :
  canIssue context m expiry ->
  let rt := issuedRefreshToken e0 user context deviceInfo0 m in
  let st1 := (saveRefreshToken
                (newRefreshTokenData e0 user rt deviceInfo0 expiry) st).2 in
  forall decoded,
  verifyRefreshToken e1 rt context = Ok decoded ->
  refreshTokens e1 rt context deviceInfo1 st1 =
    match gatedDeviceCheck context decoded deviceInfo1 with
    | Throw err => (Throw err, st1)
    | Ok _ =>
        if decide (e_now e0 + expiry < e_now e1) then
          (Throw RefreshTokenExpired, (invalidateRefreshToken rt st1).2)
        else
          generateTokenPair e1 (refreshUser decoded) context deviceInfo1
                            (rotateToken rt context st1).2
    end.
Proof.
  intros Hcan rt st1 decoded Hv.
  destruct (save_lookup_new (newRefreshTokenData e0 user rt deviceInfo0 expiry) st)
    as (Hr & d & Hd & _ & Htok & Hused & Hexp).
  rewrite (refreshTokens_found _ _ _ _ _ decoded _ d Hv Hr Hd).
  rewrite Hused, Hexp, Htok. simpl isUsed. rewrite andb_false_r.
  reflexivity.
Qed.

(** C7 (as amended). A refresh token issued with device binding enabled
    and a non-empty fingerprint F, presented while it still verifies with a
    non-empty fingerprint G whose hash differs, is refused with "Device
    mismatch detected" and the store is left exactly as it was; a later
    [refreshTokens] with fingerprint F, while the token still verifies and
    the record has not expired, succeeds. *)
Theorem device_mismatch_does_not_consume (e0 e1 e2 : Env) (user : User)
    (context : AuthContext) (deviceInfo0 deviceInfoG deviceInfoF : option DeviceInfo)
    (F G : string) (st : MemoryStorage) (pair : TokenPair) (st1 : MemoryStorage)
    (expiry : Z) :
  enableDeviceFingerprinting (securityOptions context) = true ->
  truthy (deviceInfo0 ≫= fingerprint) = Some F ->
  truthy (deviceInfoG ≫= fingerprint) = Some G ->
  truthy (deviceInfoF ≫= fingerprint) = Some F ->
  generateDeviceHash G <> generateDeviceHash F ->
  generateTokenPair e0 user context deviceInfo0 st = (Ok pair, st1) ->
  isOk (verifyRefreshToken e1 (refreshToken pair) context) = true ->
  isOk (verifyRefreshToken e2 (refreshToken pair) context) = true ->
  parseExpiry (refreshTokenExpiry (config context)) = Ok expiry ->
  e_now e2 <= e_now e0 + expiry ->
  refreshTokens e1 (refreshToken pair) context deviceInfoG st1
  = (Throw DeviceMismatch, st1) /\
  exists pair2 st2,
    refreshTokens e2 (refreshToken pair) context deviceInfoF st1 = (Ok pair2, st2).
Proof.
  intros Hfp H0 HG HF Hne Hgen Hv1 Hv2 Hp Hlive.
  destruct (generateTokenPair_inv _ _ _ _ _ _ _ Hgen)
    as (m & expiry' & Hcan & -> & ->).
  assert (expiry' = expiry) as ->.
  { destruct Hcan as (_ & _ & _ & _ & Hp'). congruence. }
  simpl refreshToken in *.
  apply (verify_issued_ok _ _ _ _ _ _ _ Hcan) in Hv1, Hv2.
  destruct (payloadDeviceHash_bound _ _ _ Hfp H0) as [_ Hhash].
  split.
  - rewrite (refresh_after_issue _ _ _ _ _ _ _ _ _ Hcan _ Hv1).
    unfold gatedDeviceCheck, checkDeviceFingerprint. rewrite Hfp. simpl.
    rewrite Hhash, HG. rewrite decide_True by congruence. done.
  - rewrite (refresh_after_issue _ _ _ _ _ _ _ _ _ Hcan _ Hv2).
    unfold gatedDeviceCheck, checkDeviceFingerprint. rewrite Hfp. simpl.
    rewrite Hhash, HF. rewrite decide_False by (by intros []).
    rewrite decide_False by lia.
    rewrite (generateTokenPair_ok _ _ _ _ _ _ _ Hcan). eauto.
Qed.

(** C10. With device fingerprinting enabled and a refresh token whose
    claims carry a device hash, [refreshTokens] compares nothing when the
    caller presents no DeviceInfo or one without a (non-empty) fingerprint:
    while the token verifies and the record has not expired, the refresh
    succeeds. *)
Theorem refresh_without_fingerprint_succeeds (e0 e1 : Env) (user : User)
    (context : AuthContext) (deviceInfo0 deviceInfo1 : option DeviceInfo)
    (F : string) (st : MemoryStorage) (pair : TokenPair) (st1 : MemoryStorage)
    (expiry : Z) :
  enableDeviceFingerprinting (securityOptions context) = true ->
  truthy (deviceInfo0 ≫= fingerprint) = Some F ->
  generateTokenPair e0 user context deviceInfo0 st = (Ok pair, st1) ->
  truthy (deviceInfo1 ≫= fingerprint) = None ->
  isOk (verifyRefreshToken e1 (refreshToken pair) context) = true ->
  parseExpiry (refreshTokenExpiry (config context)) = Ok expiry ->
  e_now e1 <= e_now e0 + expiry ->
  tokenClaims (refreshToken pair) ≫= c_deviceHash = Some (generateDeviceHash F) /\
  (forall decoded, checkDeviceFingerprint decoded deviceInfo1 = Ok tt) /\
  exists pair1 st2,
    refreshTokens e1 (refreshToken pair) context deviceInfo1 st1 = (Ok pair1, st2).
Proof.
  intros Hfp H0 Hgen H1 Hv Hp Hlive.
  destruct (generateTokenPair_inv _ _ _ _ _ _ _ Hgen)
    as (m & expiry' & Hcan & -> & ->).
  assert (expiry' = expiry) as ->.
  { destruct Hcan as (_ & _ & _ & _ & Hp'). congruence. }
  simpl refreshToken in *.
  apply (verify_issued_ok _ _ _ _ _ _ _ Hcan) in Hv.
  destruct (payloadDeviceHash_bound _ _ _ Hfp H0) as [Hhash _].
  split_and!.
  - done.
  - intros decoded. apply checkDeviceFingerprint_skipped. by right.
  - rewrite (refresh_after_issue _ _ _ _ _ _ _ _ _ Hcan _ Hv).
    unfold gatedDeviceCheck. rewrite Hfp.
    rewrite checkDeviceFingerprint_skipped by (by right).
    rewrite decide_False by lia.
    rewrite (generateTokenPair_ok _ _ _ _ _ _ _ Hcan). eauto.
Qed.

(** ** Expiry policies *)

(** The refresh token of core/tokenGeneration.ts is signed with the access
    expiry: it expires with the access token issued at the same instant. *)
Lemma refresh_token_expires_with_access_token e user context deviceInfo at_ rt :
  generateAccessToken e user context = Ok at_ ->
  generateRefreshToken e user context deviceInfo = Ok rt ->
  tokenExp rt = tokenExp at_.
Proof.
  unfold generateAccessToken, generateRefreshToken. cbv zeta. intros Ha Hr.
  apply jwt_sign_text_inv in Ha as (_ & _ & m & Hm & ->).
  apply jwt_sign_text_inv in Hr as (_ & _ & m' & Hm' & ->).
  simpl. congruence.
Qed.

(** The variant that converts with [parseExpiry] hands [jwt.sign] a number
    of milliseconds where it reads seconds. *)
Lemma refresh_token_parseExpiry_exp e user context deviceInfo rt expiry :
  parseExpiry (refreshTokenExpiry (config context)) = Ok expiry ->
  generateRefreshToken_parseExpiry e user context deviceInfo = Ok rt ->
  tokenExp rt = Some (e_now e `div` 1000 + expiry).
Proof.
  unfold generateRefreshToken_parseExpiry. cbv zeta. intros ->.
  unfold jwt_sign, timespan. repeat case_decide; try discriminate.
  by intros [= <-].
Qed.

(** C6 (as amended). [createAuthContext] validates nothing: it returns a
    context that keeps a malformed refresh expiry as it was given, and the
    format is checked when [generateTokenPair] runs, which then fails (with
    "Invalid expiry format" once both tokens are signed) and persists
    nothing. *)
Theorem malformed_expiry_fails_at_issuance (cfg : TokenConfig)
    (securityOpts : SecurityOptions) (text : string) (e : Env) (user : User)
    (deviceInfo : option DeviceInfo) (st : MemoryStorage) :
  truthy (cfg_refreshTokenExpiry cfg) = Some text ->
  ~ expiry_well_formed text ->
  let context := createAuthContext cfg securityOpts in
  refreshTokenExpiry (config context) = text /\
  isOk (generateTokenPair e user context deviceInfo st).1 = false /\
  (generateTokenPair e user context deviceInfo st).2 = st /\
  (isOk (generateAccessToken e user context) = true ->
   isOk (generateRefreshToken e user context deviceInfo) = true ->
   generateTokenPair e user context deviceInfo st
   = (Throw (InvalidExpiryFormat text), st)) /\
  isOk (generateTokenPair_parseExpiry e user context deviceInfo st).1 = false.
Proof.
  intros Htext Hbad context.
  assert (refreshTokenExpiry (config context) = text) as Hcfg.
  { unfold context, createAuthContext, or_default. simpl. by rewrite Htext. }
  pose proof (parseExpiry_malformed _ Hbad) as Hp.
  split_and!.
  - done.
  - unfold generateTokenPair, abind, alift.
    destruct (generateAccessToken _ _ _); [|done].
    destruct (generateRefreshToken _ _ _ _); [|done].
    by rewrite Hcfg, Hp.
  - unfold generateTokenPair, abind, alift.
    destruct (generateAccessToken _ _ _); [|done].
    destruct (generateRefreshToken _ _ _ _); [|done].
    by rewrite Hcfg, Hp.
  - unfold generateTokenPair, abind, alift.
    destruct (generateAccessToken _ _ _); [|discriminate].
    destruct (generateRefreshToken _ _ _ _); [|discriminate].
    by rewrite Hcfg, Hp.
  - unfold generateTokenPair_parseExpiry, abind, alift.
    destruct (generateAccessToken_parseExpiry _ _ _); [|done].
    unfold generateRefreshToken_parseExpiry. cbv zeta.
    by rewrite Hcfg, Hp.
Qed.

(** ** Interleaved refreshes of one token *)

Lemma refreshStep_settled e context c st out :
  call_pc c = Settled out -> refreshStep e context c st = (c, st).
Proof. intros Hc. unfold refreshStep. by rewrite Hc. Qed.

Lemma iter_segment e context n c st :
  Nat.iter (S n) (fun cs => refreshStep e context cs.1 cs.2) (c, st)
  = Nat.iter n (fun cs => refreshStep e context cs.1 cs.2)
             (refreshStep e context c st).
Proof. by rewrite Nat.iter_succ_r. Qed.

Lemma iter_settled e context n c st out :
  call_pc c = Settled out ->
  Nat.iter n (fun cs => refreshStep e context cs.1 cs.2) (c, st) = (c, st).
Proof.
  intros Hc. induction n as [|n IH]; [done|].
  rewrite iter_segment. by rewrite (refreshStep_settled _ _ _ _ out).
Qed.

Ltac run_segment :=
  cbn [fst snd];
  rewrite iter_segment; unfold refreshStep at 2; unfold getRefreshToken;
  cbn beta zeta iota delta [call_pc call_refreshToken call_deviceInfo].

(** Run alone, the segments of a call compose to [refreshTokens]. *)
Lemma runAlone_refreshTokens e context rt deviceInfo st :
  runAlone e context (mkRefreshCall rt deviceInfo NotStarted) st
  = (mkRefreshCall rt deviceInfo
       (Settled (refreshTokens e rt context deviceInfo st).1),
     (refreshTokens e rt context deviceInfo st).2).
Proof.
  unfold runAlone, refreshTokens, performSecurityChecks, rotateToken,
    abind, alift, aret, athrow, getRefreshToken.
  run_segment.
  destruct (verifyRefreshToken e rt context) as [decoded|err];
    [|by erewrite iter_settled].
  run_segment.
  destruct (tokens st !! rt) as [ref|]; [|by erewrite iter_settled].
  destruct (checkConcurrentUsage ref context st) as [[[]|err] st1];
    [|by erewrite iter_settled].
  run_segment.
  destruct (checkDeviceAndExpiry e ref decoded context deviceInfo st1)
    as [[[]|err] st2]; [|by erewrite iter_settled].
  run_segment.
  destruct (enableTokenRotation (securityOptions context)).
  - destruct (markTokenAsUsed rt st2) as [[[]|err] st3];
      [|by erewrite iter_settled].
    run_segment. unfold refreshUser.
    by destruct (generateTokenPair e _ context deviceInfo st3) as [out st4].
  - unfold refreshUser.
    destruct (generateTokenPair e _ context deviceInfo st2) as [out st4].
    by erewrite iter_settled.
Qed.

Lemma usedAt_save data st ref :
  usedAt st ref -> usedAt (saveRefreshToken data st).2 ref.
Proof. intros (d & Hd & Hu). exists d. split; [by apply save_heap_old|done]. Qed.

Lemma usedAt_mark tok st ref :
  usedAt st ref -> usedAt (markTokenAsUsed tok st).2 ref.
Proof. intros (d & Hd & Hu). by eapply mark_heap_used. Qed.
















(** * Further properties of the token library *)

(** ** parseExpiry *)

(** X1. [parseExpiry] returns a duration exactly for the texts made of one
    or more decimal digits followed by one of s, m, h, d, and throws
    "Invalid expiry format" with the text for every other one. *)
Theorem parseExpiry_format (expiry : string) :
  ((exists v, parseExpiry expiry = Ok v) <-> expiry_well_formed expiry) /\
  (~ expiry_well_formed expiry ->
   parseExpiry expiry = Throw (InvalidExpiryFormat expiry)).
Proof.
  split; [|apply parseExpiry_malformed].
  rewrite <- parseExpiry_ok_iff. destruct (parseExpiry expiry); simpl.
  - split; [done | by eexists].
  - split; [by intros [? [=]] | discriminate].
Qed.

Lemma is_digit_range c :
  is_digit c = true -> (48 <= nat_of_ascii c <= 57)%nat.
Proof.
  unfold is_digit. cbv zeta. intros Hc. apply andb_true_iff in Hc as [H1 H2].
  apply Nat.leb_le in H1, H2. lia.
Qed.

Lemma parseInt_from_nonneg s acc :
  all_digits s = true -> 0 <= acc -> 0 <= parseInt_from acc s.
Proof.
  revert acc. induction s as [|c rest IH]; intros acc Hd Hacc; [done|].
  simpl in Hd. apply andb_true_iff in Hd as [Hc Hd].
  apply is_digit_range in Hc. simpl. apply IH; [done|]. lia.
Qed.

Lemma units_values c k :
  units c = Some k -> k = 1000 \/ k = 60000 \/ k = 3600000 \/ k = 86400000.
Proof.
  unfold units. repeat case_decide; intros [= <-]; lia.
Qed.

(** X2. Within the range in which the source's double arithmetic is
    exact (the product does not exceed [Number.MAX_SAFE_INTEGER]), a text
    made of at least one digit and one unit parses to the decimal value of
    the digits times the unit, which is a non-negative whole number of
    seconds, in milliseconds. *)
Theorem parseExpiry_value (amount : string) (unit : ascii) (k : Z) :
  amount <> EmptyString ->
  all_digits amount = true ->
  units unit = Some k ->
  parseInt amount * k <= MAX_SAFE_INTEGER ->
  parseExpiry (amount +:+ String unit EmptyString) = Ok (parseInt amount * k) /\
  0 <= parseInt amount * k /\
  (parseInt amount * k) `mod` 1000 = 0.
Proof.
  intros Hne Hd Hu _.
  assert (match_digits_unit (amount +:+ String unit EmptyString)
          = Some (amount, unit)) as Hm.
  { apply match_digits_unit_Some. split_and!; [done|done|by eexists]. }
  split_and!.
  - unfold parseExpiry, match_expiry. rewrite Hm.
    destruct amount; [done|]. by rewrite Hu.
  - pose proof (parseInt_from_nonneg amount 0 Hd (Z.le_refl 0)).
    apply units_values in Hu. unfold parseInt. nia.
  - apply units_values in Hu.
    destruct Hu as [-> | [-> | [-> | ->]]].
    + apply Z_mod_mult.
    + replace 60000 with (60 * 1000) by lia. rewrite Z.mul_assoc. apply Z_mod_mult.
    + replace 3600000 with (3600 * 1000) by lia. rewrite Z.mul_assoc.
      apply Z_mod_mult.
    + replace 86400000 with (86400 * 1000) by lia. rewrite Z.mul_assoc.
      apply Z_mod_mult.
Qed.

(** ** Issued tokens and verification *)

(** X3. The access token [generateTokenPair] returns verifies from its
    issuance until its [exp] second is reached, with the user's id and
    email and the kind "access"; from that second on it is refused as
    expired. *)
Theorem issued_access_token_round_trip (e0 e1 : Env) (user : User)
    (context : AuthContext) (deviceInfo : option DeviceInfo)
    (st st1 : MemoryStorage) (pair : TokenPair) :
  generateTokenPair e0 user context deviceInfo st = (Ok pair, st1) ->
  exists m,
    ms (accessTokenExpiry (config context)) = Some m /\
    verifyAccessToken e1 (accessToken pair) context
    = if decide (e_now e0 `div` 1000 + m `div` 1000 <= e_now e1 `div` 1000)
      then Throw JwtExpired
      else Ok (mkPayload
                 {| c_userId := user_id user; c_email := user_email user;
                    c_type := Some "access"; c_jti := None;
                    c_deviceHash := None |}
                 (e_now e0 `div` 1000)
                 (Some (e_now e0 `div` 1000 + m `div` 1000))).
Proof.
  intros Hgen.
  destruct (generateTokenPair_inv _ _ _ _ _ _ _ Hgen)
    as (m & expiry & (Ha & _ & _ & Hm & _) & -> & _).
  exists m. split; [done|].
  unfold verifyAccessToken, issuedAccessToken. simpl.
  rewrite decide_False by done. rewrite decide_True by done.
  case_decide; [done|]. done.
Qed.

(** X4. Neither token of an issued pair passes as the other kind: the
    access token is refused by [verifyRefreshToken] and the refresh token
    by [verifyAccessToken], at any instant, also when both secrets are the
    same. *)
Theorem issued_tokens_are_not_interchangeable (e0 e1 : Env) (user : User)
    (context : AuthContext) (deviceInfo : option DeviceInfo)
    (st st1 : MemoryStorage) (pair : TokenPair) :
  generateTokenPair e0 user context deviceInfo st = (Ok pair, st1) ->
  isOk (verifyRefreshToken e1 (accessToken pair) context) = false /\
  isOk (verifyAccessToken e1 (refreshToken pair) context) = false.
Proof.
  intros Hgen.
  destruct (generateTokenPair_inv _ _ _ _ _ _ _ Hgen)
    as (m & expiry & _ & -> & _).
  split.
  - unfold verifyRefreshToken.
    destruct (jwt_verify _ _ _) as [decoded|err] eqn:Hv; [|done].
    apply jwt_verify_ok_claims in Hv. simpl in Hv. injection Hv as <-.
    simpl. done.
  - unfold verifyAccessToken.
    destruct (jwt_verify _ _ _) as [decoded|err] eqn:Hv; [|done].
    apply jwt_verify_ok_claims in Hv. simpl in Hv. injection Hv as <-.
    simpl. done.
Qed.

(** X5. The untyped variant of [verifyRefreshToken] lets an access token
    pass as a refresh token when the two secrets are equal: whatever
    [verifyAccessToken] accepts, it accepts too, kind "access" included. *)
Theorem untyped_variant_confuses_kinds (e : Env) (tok : Token)
    (context : AuthContext) (decoded : JwtPayload) :
  accessTokenSecret (config context) = refreshTokenSecret (config context) ->
  verifyAccessToken e tok context = Ok decoded ->
  verifyRefreshToken_untyped e tok context = Ok decoded /\
  c_type (p_claims decoded) = Some "access" /\
  isOk (verifyRefreshToken e tok context) = false.
Proof.
  intros Hsame. unfold verifyAccessToken, verifyRefreshToken_untyped,
    verifyRefreshToken.
  rewrite <- Hsame.
  destruct (jwt_verify _ _ _) as [decoded'|err] eqn:Hv; [|discriminate].
  case_decide as Hty; [discriminate|]. intros [= ->].
  rewrite Hty. done.
Qed.

(** ** The in-memory token store *)

Lemma refreshTokens_unfold e rt context deviceInfo st :
  refreshTokens e rt context deviceInfo st =
    match verifyRefreshToken e rt context with
    | Throw err => (Throw err, st)
    | Ok decoded =>
        match tokens st !! rt with
        | None => (Throw InvalidRefreshToken, st)
        | Some ref =>
            refreshOutcome e rt context deviceInfo st decoded (heap st !! ref)
        end
    end.
Proof.
  destruct (verifyRefreshToken e rt context) as [decoded|err] eqn:Hv.
  2:{ unfold refreshTokens. unfold abind at 1. unfold alift. by rewrite Hv. }
  destruct (tokens st !! rt) as [ref|] eqn:Hr.
  2:{ unfold refreshTokens. unfold abind at 1. unfold alift. rewrite Hv.
      unfold abind at 1. unfold getRefreshToken. by rewrite Hr. }
  destruct (heap st !! ref) as [d|] eqn:Hd.
  { by rewrite (refreshTokens_found _ _ _ _ _ decoded ref d). }
  unfold refreshTokens. unfold abind at 1. unfold alift at 1. rewrite Hv.
  unfold abind at 1. unfold getRefreshToken. rewrite Hr.
  unfold abind at 1. unfold performSecurityChecks, checkConcurrentUsage,
    checkDeviceAndExpiry, checkTokenExpiry, refreshOutcome, gatedDeviceCheck.
  unfold abind at 1.
  destruct (enableConcurrentUsageDetection _).
  - unfold abind at 1. unfold deref. by rewrite Hd.
  - unfold aret at 1. unfold abind at 1.
    destruct (enableDeviceFingerprinting _).
    + unfold alift. destruct (checkDeviceFingerprint _ _) as [[]|err]; [|done].
      unfold abind at 1. unfold deref. by rewrite Hd.
    + unfold aret at 1. unfold abind at 1. unfold deref. by rewrite Hd.
Qed.

Lemma storeOk_empty : storeOk createMemoryStorage.
Proof. intros tok ref. simpl. by rewrite lookup_empty. Qed.

Lemma storeOk_save data st :
  tokenSubject (token data) = Some (userId data) ->
  storeOk st -> storeOk (saveRefreshToken data st).2.
Proof.
  intros Hsub Hok tok ref. simpl.
  destruct (decide (token data = tok)) as [<-|Hne].
  - rewrite lookup_insert_eq. intros [= <-].
    eexists. split.
    { rewrite lookup_app_r by lia. rewrite Nat.sub_diag. reflexivity. }
    split; [done|exact Hsub].
  - rewrite lookup_insert_ne by done. intros Hl.
    destruct (Hok _ _ Hl) as (d & Hd & Ht & Hs).
    exists d. split_and!; [|done|done].
    rewrite lookup_app_l; [done|]. by eapply lookup_lt_Some.
Qed.

Lemma storeOk_mark tok st : storeOk st -> storeOk (markTokenAsUsed tok st).2.
Proof.
  intros Hok tok' ref. rewrite mark_tokens. intros Hl.
  destruct (Hok _ _ Hl) as (d & Hd & Ht & Hs).
  unfold markTokenAsUsed. destruct (tokens st !! tok) as [ref'|]; [|eauto].
  simpl. destruct (decide (ref' = ref)) as [->|Hne].
  - exists (setUsed d). by rewrite list_lookup_alter_eq, Hd.
  - exists d. by rewrite list_lookup_alter_ne.
Qed.

Lemma storeOk_subset st st' :
  heap st' = heap st ->
  (forall tok ref, tokens st' !! tok = Some ref -> tokens st !! tok = Some ref) ->
  storeOk st -> storeOk st'.
Proof.
  intros Hh Hsub Hok tok ref Hl. rewrite Hh. by apply Hok, Hsub.
Qed.

Lemma storeOk_invalidateAll uid st :
  storeOk st -> storeOk (invalidateAllUserTokens uid st).2.
Proof.
  apply storeOk_subset; [done|]. intros tok ref. simpl. intros Hl.
  by apply map_lookup_filter_Some in Hl as [? _].
Qed.

Lemma storeOk_invalidate tok st :
  storeOk st -> storeOk (invalidateRefreshToken tok st).2.
Proof.
  apply storeOk_subset; [done|]. intros tok' ref. simpl. intros Hl.
  by apply lookup_delete_Some in Hl as [_ ?].
Qed.

Lemma storeOk_cleanup now st :
  storeOk st -> storeOk (cleanupExpiredTokens now st).2.
Proof.
  apply storeOk_subset; [done|]. intros tok ref. simpl. intros Hl.
  by apply map_lookup_filter_Some in Hl as [? _].
Qed.

Lemma storeOk_generate e user context deviceInfo st :
  storeOk st -> storeOk (generateTokenPair e user context deviceInfo st).2.
Proof.
  intros Hok.
  destruct (generateTokenPair e user context deviceInfo st) as [[pair|err] st1] eqn:Hg.
  - destruct (generateTokenPair_inv _ _ _ _ _ _ _ Hg) as (m & expiry & _ & _ & ->).
    by apply storeOk_save.
  - by apply generateTokenPair_throw_store in Hg as ->.
Qed.

Lemma storeOk_rotate rt context st :
  storeOk st -> storeOk (rotateToken rt context st).2.
Proof.
  unfold rotateToken. destruct (enableTokenRotation _); [|done].
  apply storeOk_mark.
Qed.

Lemma storeOk_refresh e rt context deviceInfo st :
  storeOk st -> storeOk (refreshTokens e rt context deviceInfo st).2.
Proof.
  intros Hok. rewrite refreshTokens_unfold.
  destruct (verifyRefreshToken e rt context) as [decoded|err]; [|done].
  destruct (tokens st !! rt) as [ref|]; [|done].
  unfold refreshOutcome. destruct (heap st !! ref) as [d|].
  - destruct (_ && _); [by apply storeOk_invalidateAll|].
    destruct (gatedDeviceCheck _ _ _); [|done].
    case_decide; [by apply storeOk_invalidate|].
    by apply storeOk_generate, storeOk_rotate.
  - destruct (enableConcurrentUsageDetection _); [done|].
    by destruct (gatedDeviceCheck _ _ _).
Qed.

Lemma storeOk_perform context e r st :
  storeOk st -> storeOk (perform context e r st).
Proof.
  destruct r; simpl.
  - apply storeOk_generate.
  - apply storeOk_refresh.
  - apply storeOk_invalidateAll.
  - apply storeOk_invalidate.
  - apply storeOk_cleanup.
Qed.

Lemma generateTokenPair_no_dangling e user context deviceInfo st st1 :
  generateTokenPair e user context deviceInfo st <> (Throw DanglingReference, st1).
Proof.
  unfold generateTokenPair, abind, alift, generateAccessToken,
    generateRefreshToken, jwt_sign, timespan, parseExpiry.
  repeat case_match; simplify_eq/=; done.
Qed.

(** X6. Whatever sequence of issuances, refreshes, logouts and clean-ups a
    caller performs on a new store, every entry of the map refers to a
    stored object that is filed under its own token and owned by the
    subject of that token; in particular [refreshTokens] never meets a
    missing object there. *)
Theorem reachable_store_is_consistent (context : AuthContext)
    (requests : list (Env * Request)) (e : Env) (rt : Token)
    (deviceInfo : option DeviceInfo) :
  storeOk (performAll context requests createMemoryStorage) /\
  (refreshTokens e rt context deviceInfo
     (performAll context requests createMemoryStorage)).1
  <> Throw DanglingReference.
Proof.
  assert (storeOk (performAll context requests createMemoryStorage)) as Hok.
  { unfold performAll. generalize storeOk_empty.
    generalize createMemoryStorage as st.
    induction requests as [|[e' r] requests IH]; intros st Hst; [done|].
    simpl. apply IH. by apply storeOk_perform. }
  split; [done|].
  set (st := performAll context requests createMemoryStorage) in *.
  rewrite refreshTokens_unfold.
  destruct (verifyRefreshToken e rt context) as [decoded|err] eqn:Hv.
  2:{ simpl. intros [= ->]. revert Hv. unfold verifyRefreshToken, jwt_verify.
      destruct rt as [key claims iat exp|s]; [|discriminate].
      repeat case_decide; try discriminate; destruct exp;
        repeat case_decide; discriminate. }
  destruct (tokens st !! rt) as [ref|] eqn:Hr; [|done].
  destruct (Hok _ _ Hr) as (d & Hd & _). rewrite Hd. unfold refreshOutcome.
  destruct (_ && _); [done|].
  destruct (gatedDeviceCheck _ _ _) as [[]|err] eqn:Hdev.
  2:{ simpl. intros [= ->]. revert Hdev.
      unfold gatedDeviceCheck, checkDeviceFingerprint.
      destruct (enableDeviceFingerprinting _); [|discriminate].
      repeat case_match; discriminate. }
  case_decide; [done|].
  destruct (generateTokenPair _ _ _ _ _) as [[pair|err] st1] eqn:Hg; [done|].
  simpl. intros [= ->]. by apply generateTokenPair_no_dangling in Hg.
Qed.

(** X7. The used mark never comes off: an object that is marked used stays
    in place and marked, whatever operation runs next. *)
Theorem used_mark_is_permanent (context : AuthContext) (e : Env) (r : Request)
    (st : MemoryStorage) (ref : nat) :
  usedAt st ref -> usedAt (perform context e r st) ref.
Proof.
  intros Hu. destruct r as [user deviceInfo|rt deviceInfo|uid|rt|]; simpl;
    try done.
  - destruct (generateTokenPair e user context deviceInfo st)
      as [[pair|err] st1] eqn:Hg.
    + destruct (generateTokenPair_inv _ _ _ _ _ _ _ Hg)
        as (m & expiry & _ & _ & ->). by apply usedAt_save.
    + by apply generateTokenPair_throw_store in Hg as ->.
  - rewrite refreshTokens_unfold.
    destruct (verifyRefreshToken e rt context) as [decoded|err]; [|done].
    destruct (tokens st !! rt) as [ref'|]; [|done].
    unfold refreshOutcome. destruct (heap st !! ref') as [d|].
    + destruct (_ && _); [done|].
      destruct (gatedDeviceCheck _ _ _); [|done].
      case_decide; [done|].
      assert (usedAt (rotateToken rt context st).2 ref) as Hu'.
      { unfold rotateToken. destruct (enableTokenRotation _); [|done].
        by apply usedAt_mark. }
      destruct (generateTokenPair e _ context deviceInfo _)
        as [[pair|err] st1] eqn:Hg.
      * destruct (generateTokenPair_inv _ _ _ _ _ _ _ Hg)
          as (m & expiry & _ & _ & ->). by apply usedAt_save.
      * by apply generateTokenPair_throw_store in Hg as ->.
    + destruct (enableConcurrentUsageDetection _); [done|].
      by destruct (gatedDeviceCheck _ _ _).
Qed.

(** X8. A successful [generateTokenPair] files exactly one new record,
    under the refresh token it returns: unused, owned by the user, with the
    caller's device data, expiring [parseExpiry(refreshTokenExpiry)] after
    the issuance; every other token keeps its entry and every stored object
    stays as it was. A failed one leaves the store untouched. *)
Theorem issuance_files_one_record (e : Env) (user : User) (context : AuthContext)
    (deviceInfo : option DeviceInfo) (st : MemoryStorage) :
  match generateTokenPair e user context deviceInfo st with
  | (Ok tp, st1) =>
      exists expiry,
        parseExpiry (refreshTokenExpiry (config context)) = Ok expiry /\
        tokens st1 !! refreshToken tp = Some (length (heap st)) /\
        heap st1 !! length (heap st)
        = Some {| rec_id := pretty (idCounter st);
                  userId := user_id user;
                  token := refreshToken tp;
                  deviceFingerprint := deviceInfo ≫= fingerprint;
                  ipAddress := deviceInfo ≫= dev_ipAddress;
                  userAgent := deviceInfo ≫= dev_userAgent;
                  isUsed := false;
                  createdAt := e_now e;
                  expiresAt := e_now e + expiry |} /\
        length (heap st1) = S (length (heap st)) /\
        (forall tok, tok <> refreshToken tp ->
                     tokens st1 !! tok = tokens st !! tok) /\
        (forall ref d, heap st !! ref = Some d -> heap st1 !! ref = Some d)
  | (Throw _, st1) => st1 = st
  end.
Proof.
  destruct (generateTokenPair e user context deviceInfo st)
    as [[pair|err] st1] eqn:Hg.
  - destruct (generateTokenPair_inv _ _ _ _ _ _ _ Hg)
      as (m & expiry & (_ & _ & _ & _ & Hp) & -> & ->).
    exists expiry. simpl refreshToken. split_and!.
    + done.
    + simpl. apply lookup_insert_eq.
    + simpl. rewrite lookup_app_r by lia. by rewrite Nat.sub_diag.
    + simpl. rewrite length_app. simpl. lia.
    + intros tok Hne. simpl. by rewrite lookup_insert_ne.
    + intros ref d Hd. by apply save_heap_old.
  - by apply generateTokenPair_throw_store in Hg.
Qed.

(** ** Logout and clean-up *)

(** X9. [logoutUser] removes every record of the user and nothing else,
    and a second [logoutUser] for the same user changes nothing. *)
Theorem logoutUser_is_complete_and_idempotent (uid : UserId) (st : MemoryStorage) :
  let st1 := (logoutUser uid st).2 in
  noRecordOf uid st1 /\
  (forall tok ref, tokens st !! tok = Some ref ->
                   ~ ownedBy (heap st) uid ref -> tokens st1 !! tok = Some ref) /\
  (forall tok ref, tokens st1 !! tok = Some ref -> tokens st !! tok = Some ref) /\
  heap st1 = heap st /\
  (logoutUser uid st1).2 = st1.
Proof.
  intros st1. split_and!.
  - apply invalidateAll_noRecordOf.
  - intros tok ref. apply invalidateAll_keeps_others.
  - intros tok ref. simpl. intros Hl.
    by apply map_lookup_filter_Some in Hl as [? _].
  - done.
  - unfold st1, logoutUser, invalidateAllUserTokens. simpl. f_equal.
    apply map_eq. intros tok. apply option_eq. intros ref.
    rewrite !map_lookup_filter_Some. simpl. tauto.
Qed.

(** X10. [logoutDevice] removes the entry of that one refresh token and
    no other; afterwards a [refreshTokens] with the token, even though it
    still verifies, fails with "Invalid refresh token" and changes
    nothing. *)
Theorem logoutDevice_revokes_one_token (e : Env) (rt : Token)
    (context : AuthContext) (deviceInfo : option DeviceInfo)
    (st : MemoryStorage) :
  let st1 := (logoutDevice rt st).2 in
  tokens st1 !! rt = None /\
  (forall tok, tok <> rt -> tokens st1 !! tok = tokens st !! tok) /\
  heap st1 = heap st /\
  (isOk (verifyRefreshToken e rt context) = true ->
   refreshTokens e rt context deviceInfo st1 = (Throw InvalidRefreshToken, st1)).
Proof.
  intros st1. split_and!.
  - simpl. apply lookup_delete_eq.
  - intros tok Hne. simpl. by apply lookup_delete_ne.
  - done.
  - intros Hv. rewrite refreshTokens_unfold.
    destruct (verifyRefreshToken e rt context); [|discriminate].
    assert (tokens st1 !! rt = None) as -> by apply lookup_delete_eq. done.
Qed.

(** X11. [cleanupExpiredTokens] drops exactly the entries whose record
    expired before the instant of the clean-up, and a [refreshTokens] at
    that instant on the cleaned store never fails with "Refresh token
    expired". *)
Theorem cleanup_drops_exactly_the_expired (e : Env) (rt : Token)
    (context : AuthContext) (deviceInfo : option DeviceInfo)
    (st : MemoryStorage) :
  let st1 := (cleanupExpiredTokens (e_now e) st).2 in
  (forall tok ref,
     tokens st1 !! tok = Some ref <->
     tokens st !! tok = Some ref /\ ~ expiredAt (heap st) (e_now e) ref) /\
  heap st1 = heap st /\
  (refreshTokens e rt context deviceInfo st1).1 <> Throw RefreshTokenExpired.
Proof.
  intros st1.
  assert (forall tok ref,
            tokens st1 !! tok = Some ref <->
            tokens st !! tok = Some ref /\ ~ expiredAt (heap st) (e_now e) ref)
    as Hchar.
  { intros tok ref. simpl. by rewrite map_lookup_filter_Some. }
  split_and!; [done|done|].
  rewrite refreshTokens_unfold.
  destruct (verifyRefreshToken e rt context) as [decoded|err] eqn:Hv.
  2:{ simpl. intros [= ->]. revert Hv. unfold verifyRefreshToken, jwt_verify.
      destruct rt as [key claims iat exp|s]; [|discriminate].
      repeat case_decide; try discriminate; destruct exp;
        repeat case_decide; discriminate. }
  destruct (tokens st1 !! rt) as [ref|] eqn:Hr; [|done].
  apply Hchar in Hr as [_ Hlive]. unfold refreshOutcome.
  change (heap st1) with (heap st).
  destruct (heap st !! ref) as [d|] eqn:Hd.
  - destruct (_ && _); [done|].
    destruct (gatedDeviceCheck _ _ _) as [[]|err] eqn:Hdev.
    2:{ simpl. intros [= ->]. revert Hdev.
        unfold gatedDeviceCheck, checkDeviceFingerprint.
        destruct (enableDeviceFingerprinting _); [|discriminate].
        repeat case_match; discriminate. }
    case_decide as Hexp.
    { exfalso. apply Hlive. unfold expiredAt. by rewrite Hd. }
    destruct (generateTokenPair _ _ _ _ _) as [[pair|err] st2] eqn:Hg; [done|].
    simpl. intros [= ->]. revert Hg.
    unfold generateTokenPair, abind, alift, generateAccessToken,
      generateRefreshToken, jwt_sign, timespan, parseExpiry.
    repeat case_match; simplify_eq/=; done.
  - destruct (enableConcurrentUsageDetection _); [done|].
    destruct (gatedDeviceCheck _ _ _) as [[]|err] eqn:Hdev; [done|].
    simpl. intros [= ->]. revert Hdev.
    unfold gatedDeviceCheck, checkDeviceFingerprint.
    destruct (enableDeviceFingerprinting _); [|discriminate].
    repeat case_match; discriminate.
Qed.

(** ** refreshTokens *)

(** X12. A refresh with a token that does not verify, or that verifies but
    has no entry in the store, fails without touching the store: with the
    error of the verification in the first case, with "Invalid refresh
    token" in the second. *)
Theorem refresh_rejected_before_any_write (e : Env) (rt : Token)
    (context : AuthContext) (deviceInfo : option DeviceInfo)
    (st : MemoryStorage) :
  (forall err, verifyRefreshToken e rt context = Throw err ->
               refreshTokens e rt context deviceInfo st = (Throw err, st)) /\
  (isOk (verifyRefreshToken e rt context) = true -> tokens st !! rt = None ->
   refreshTokens e rt context deviceInfo st = (Throw InvalidRefreshToken, st)).
Proof.
  split.
  - intros err Hv. rewrite refreshTokens_unfold. by rewrite Hv.
  - intros Hv Hr. rewrite refreshTokens_unfold, Hr.
    by destruct (verifyRefreshToken e rt context).
Qed.

(** X13. A refresh with a token whose record has expired (and is not
    caught by the reuse or the device check first) fails with "Refresh
    token expired" and removes that record only; a further refresh with
    the same token then fails with "Invalid refresh token". *)
Theorem expired_record_is_removed (e : Env) (rt : Token) (context : AuthContext)
    (deviceInfo : option DeviceInfo) (st : MemoryStorage)
    (decoded : JwtPayload) (ref : nat) (d : RefreshTokenData) :
  storeOk st ->
  verifyRefreshToken e rt context = Ok decoded ->
  tokens st !! rt = Some ref ->
  heap st !! ref = Some d ->
  enableConcurrentUsageDetection (securityOptions context) && isUsed d = false ->
  gatedDeviceCheck context decoded deviceInfo = Ok tt ->
  expiresAt d < e_now e ->
  let st1 := (refreshTokens e rt context deviceInfo st).2 in
  (refreshTokens e rt context deviceInfo st).1 = Throw RefreshTokenExpired /\
  tokens st1 = delete rt (tokens st) /\
  heap st1 = heap st /\
  refreshTokens e rt context deviceInfo st1 = (Throw InvalidRefreshToken, st1).
Proof.
  intros Hok Hv Hr Hd Hreuse Hdev Hexp st1.
  destruct (Hok _ _ Hr) as (d' & Hd' & Htok & _).
  assert (d' = d) as -> by congruence.
  assert (refreshTokens e rt context deviceInfo st
          = (Throw RefreshTokenExpired, (invalidateRefreshToken rt st).2)) as Hrun.
  { rewrite refreshTokens_unfold, Hv, Hr, Hd. unfold refreshOutcome.
    rewrite Hreuse, Hdev. rewrite decide_True by done. by rewrite Htok. }
  unfold st1. rewrite Hrun. split_and!; [done|done|done|].
  rewrite refreshTokens_unfold, Hv. simpl. by rewrite lookup_delete_eq.
Qed.

Lemma refreshTokens_ok_shape e rt context deviceInfo st pair st1 :
  refreshTokens e rt context deviceInfo st = (Ok pair, st1) ->
  exists decoded ref d,
    verifyRefreshToken e rt context = Ok decoded /\
    tokens st !! rt = Some ref /\ heap st !! ref = Some d /\
    enableConcurrentUsageDetection (securityOptions context) && isUsed d = false /\
    gatedDeviceCheck context decoded deviceInfo = Ok tt /\
    ~ expiresAt d < e_now e /\
    generateTokenPair e (refreshUser decoded) context deviceInfo
                      (rotateToken rt context st).2 = (Ok pair, st1).
Proof.
  rewrite refreshTokens_unfold.
  destruct (verifyRefreshToken e rt context) as [decoded|err] eqn:Hv;
    [|discriminate].
  destruct (tokens st !! rt) as [ref|] eqn:Hr; [|discriminate].
  unfold refreshOutcome. destruct (heap st !! ref) as [d|] eqn:Hd.
  - destruct (_ && _) eqn:Hreuse; [discriminate|].
    destruct (gatedDeviceCheck _ _ _) as [[]|err] eqn:Hdev; [|discriminate].
    case_decide; [discriminate|]. intros Hg.
    exists decoded, ref, d. by split_and!.
  - destruct (enableConcurrentUsageDetection _); [discriminate|].
    by destruct (gatedDeviceCheck _ _ _).
Qed.

(** X14. A successful [refreshTokens] returns tokens for the subject of
    the presented token: the new access token carries that user id and no
    email, the new refresh token the same user id and the fresh identifier,
    and both are stamped with the instant of the refresh. The new refresh
    token is filed as a new, unused record of that user; no entry other
    than the new token's changes. *)
Theorem refresh_reissues_for_the_same_subject (e : Env) (rt : Token)
    (context : AuthContext) (deviceInfo : option DeviceInfo)
    (st st1 : MemoryStorage) (pair : TokenPair) :
  refreshTokens e rt context deviceInfo st = (Ok pair, st1) ->
  exists decoded m ref,
    verifyRefreshToken e rt context = Ok decoded /\
    accessToken pair
    = Signed (accessTokenSecret (config context))
        {| c_userId := c_userId (p_claims decoded); c_email := None;
           c_type := Some "access"; c_jti := None; c_deviceHash := None |}
        (e_now e `div` 1000) (Some (e_now e `div` 1000 + m `div` 1000)) /\
    refreshToken pair
    = Signed (refreshTokenSecret (config context))
        {| c_userId := c_userId (p_claims decoded); c_email := None;
           c_type := Some "refresh"; c_jti := Some (e_jti e);
           c_deviceHash := payloadDeviceHash context deviceInfo |}
        (e_now e `div` 1000) (Some (e_now e `div` 1000 + m `div` 1000)) /\
    tokens st1 !! refreshToken pair = Some ref /\
    (exists d, heap st1 !! ref = Some d /\ isUsed d = false /\
               userId d = c_userId (p_claims decoded) /\
               token d = refreshToken pair) /\
    (forall tok, tok <> refreshToken pair ->
                 tokens st1 !! tok = tokens st !! tok).
Proof.
  intros Hrun.
  destruct (refreshTokens_ok_shape _ _ _ _ _ _ _ Hrun)
    as (decoded & ref & d & Hv & Hr & Hd & _ & _ & _ & Hg).
  destruct (generateTokenPair_inv _ _ _ _ _ _ _ Hg)
    as (m & expiry & _ & -> & ->).
  exists decoded, m, (length (heap (rotateToken rt context st).2)).
  simpl accessToken. simpl refreshToken. split_and!; [done|done|done|..].
  - simpl. apply lookup_insert_eq.
  - eexists. split.
    { simpl. rewrite lookup_app_r by lia. rewrite Nat.sub_diag. reflexivity. }
    done.
  - intros tok Hne. simpl. rewrite lookup_insert_ne by done.
    unfold rotateToken. destruct (enableTokenRotation _); [|done].
    apply mark_tokens.
Qed.

(** X15. With token rotation disabled the presented token is not
    consumed: after a successful [refreshTokens] that issued a different
    token, the same call succeeds again for as long as the token verifies
    and its record has not expired. *)
Theorem without_rotation_token_stays_usable (e1 e2 : Env) (rt : Token)
    (context : AuthContext) (deviceInfo : option DeviceInfo)
    (st st1 : MemoryStorage) (pair : TokenPair) :
  enableTokenRotation (securityOptions context) = false ->
  refreshTokens e1 rt context deviceInfo st = (Ok pair, st1) ->
  Some (e_jti e1) <> tokenJti rt ->
  isOk (verifyRefreshToken e2 rt context) = true ->
  (forall ref d, tokens st !! rt = Some ref -> heap st !! ref = Some d ->
                 e_now e2 <= expiresAt d) ->
  isOk (refreshTokens e2 rt context deviceInfo st1).1 = true.
Proof.
  intros Hrot Hrun Hjti Hv2 Hlive.
  destruct (refreshTokens_ok_shape _ _ _ _ _ _ _ Hrun)
    as (decoded & ref & d & Hv & Hr & Hd & Hreuse & Hdev & _ & Hg).
  assert ((rotateToken rt context st).2 = st) as Hst.
  { unfold rotateToken. by rewrite Hrot. }
  rewrite Hst in Hg.
  destruct (generateTokenPair_inv _ _ _ _ _ _ _ Hg)
    as (m & expiry & Hcan & _ & ->).
  pose proof (verifyRefreshToken_time_independent _ _ _ _ _ Hv Hv2) as Hv2'.
  specialize (Hlive _ _ Hr Hd).
  rewrite (refreshTokens_found _ _ _ _ _ decoded ref d); [|done| |].
  - rewrite Hreuse, Hdev. rewrite decide_False by lia.
    by rewrite (generateTokenPair_ok _ _ _ _ _ _ _ Hcan).
  - rewrite save_lookup_old; [done|]. simpl.
    intros Heq. apply Hjti. by rewrite Heq.
  - by apply save_heap_old.
Qed.

(** X16. After a refresh has failed with "Concurrent token usage
    detected", no refresh token of the same subject is accepted any more in
    a consistent store: each one that still verifies fails with "Invalid
    refresh token". *)
Theorem replay_revokes_every_token_of_the_subject (e : Env) (rt : Token)
    (context : AuthContext) (deviceInfo : option DeviceInfo)
    (st st1 : MemoryStorage) :
  storeOk st ->
  refreshTokens e rt context deviceInfo st = (Throw ConcurrentUsageDetected, st1) ->
  exists uid,
    tokenSubject rt = Some uid /\
    forall (e2 : Env) (tok : Token) (deviceInfo2 : option DeviceInfo),
      tokenSubject tok = Some uid ->
      tokens st1 !! tok = None /\
      isOk (refreshTokens e2 tok context deviceInfo2 st1).1 = false /\
      (isOk (verifyRefreshToken e2 tok context) = true ->
       refreshTokens e2 tok context deviceInfo2 st1
       = (Throw InvalidRefreshToken, st1)).
Proof.
  intros Hok. rewrite refreshTokens_unfold.
  destruct (verifyRefreshToken e rt context) as [decoded|err] eqn:Hv.
  2:{ intros [= -> _]. revert Hv. unfold verifyRefreshToken, jwt_verify.
      destruct rt as [key claims iat exp|s]; [|discriminate].
      repeat case_decide; try discriminate; destruct exp;
        repeat case_decide; discriminate. }
  destruct (tokens st !! rt) as [ref|] eqn:Hr; [|discriminate].
  destruct (Hok _ _ Hr) as (d & Hd & Htok & Hsub). rewrite Hd.
  unfold refreshOutcome.
  destruct (_ && _).
  2:{ destruct (gatedDeviceCheck _ _ _) as [[]|err] eqn:Hdev.
      2:{ intros [= -> _]. revert Hdev.
          unfold gatedDeviceCheck, checkDeviceFingerprint.
          destruct (enableDeviceFingerprinting _); [|discriminate].
          repeat case_match; discriminate. }
      case_decide; [discriminate|].
      intros Hg. revert Hg.
      unfold generateTokenPair, abind, alift, generateAccessToken,
        generateRefreshToken, jwt_sign, timespan, parseExpiry.
      repeat case_match; simplify_eq/=; done. }
  intros Heq.
  assert (st1 = (invalidateAllUserTokens (userId d) st).2) as -> by congruence.
  clear Heq. exists (userId d). split; [done|].
  intros e2 tok deviceInfo2 Htoksub.
  assert (tokens (invalidateAllUserTokens (userId d) st).2 !! tok = None) as Hnone.
  { simpl. apply map_lookup_filter_None.
    destruct (tokens st !! tok) as [ref'|] eqn:Hr'; [right|by left].
    intros ref'' [= <-] Hnot. apply Hnot. simpl.
    destruct (Hok _ _ Hr') as (d' & Hd' & _ & Hsub').
    unfold ownedBy. rewrite Hd'. simpl. congruence. }
  split; [done|]. rewrite refreshTokens_unfold, Hnone.
  destruct (verifyRefreshToken e2 tok context); split; done.
Qed.

(** X17. With device fingerprinting disabled nothing is bound to a device:
    issued refresh tokens carry no device hash and [refreshTokens] never
    fails with "Device mismatch detected", whatever device is presented. *)
Theorem no_device_binding_when_disabled (e : Env) (user : User) (rt : Token)
    (context : AuthContext) (deviceInfo : option DeviceInfo)
    (st : MemoryStorage) :
  enableDeviceFingerprinting (securityOptions context) = false ->
  (forall tok, generateRefreshToken e user context deviceInfo = Ok tok ->
               tokenClaims tok ≫= c_deviceHash = None) /\
  (refreshTokens e rt context deviceInfo st).1 <> Throw DeviceMismatch.
Proof.
  intros Hoff. split.
  - intros tok. unfold generateRefreshToken. cbv zeta. intros Hs.
    apply jwt_sign_text_inv in Hs as (_ & _ & m & _ & ->).
    simpl. unfold payloadDeviceHash. by rewrite Hoff.
  - rewrite refreshTokens_unfold.
    destruct (verifyRefreshToken e rt context) as [decoded|err] eqn:Hv.
    2:{ simpl. intros [= ->]. revert Hv. unfold verifyRefreshToken, jwt_verify.
        destruct rt as [key claims iat exp|s]; [|discriminate].
        repeat case_decide; try discriminate; destruct exp;
          repeat case_decide; discriminate. }
    destruct (tokens st !! rt) as [ref|]; [|done].
    unfold refreshOutcome, gatedDeviceCheck. rewrite Hoff.
    destruct (heap st !! ref) as [d|].
    + destruct (_ && _); [done|]. case_decide; [done|].
      destruct (generateTokenPair _ _ _ _ _) as [[pair|err] st2] eqn:Hg; [done|].
      simpl. intros [= ->]. revert Hg.
      unfold generateTokenPair, abind, alift, generateAccessToken,
        generateRefreshToken, jwt_sign, timespan, parseExpiry.
      repeat case_match; simplify_eq/=; done.
    + by destruct (enableConcurrentUsageDetection _).
Qed.

End CoreProperties.

Section RunsProperties.
#[local] Existing Instance sampleLibs.

Lemma pairOf_ok (r : Result TokenPair * MemoryStorage) :
  isOk r.1 = true -> r = (Ok (pairOf r), r.2).
Proof. destruct r as [[p|err] st]; [done|discriminate]. Qed.

(** ** C1 *)


(** Run one after the other, the second call is refused. *)
Lemma sequential_refreshes_second_refused :
  map call_pc
      (runSchedule defaultContext oneAfterTheOther
                   (twoCalls, issuedDefault.2)).1
  !! 1%nat = Some (Settled (Throw ConcurrentUsageDetected)).
Proof. vm_compute. reflexivity. Qed.

(** The token of [issuedDefault] has been refreshed once, which marked
    its record used; it still verifies at the instants of the two calls.
    Two calls on it that take turns at every [await] both read the marked
    record and are both refused by the reuse check; with the detection
    switched off the same two calls both return a pair. *)
Lemma marked_token_refused_by_the_reuse_check :
  isOk (verifyRefreshToken envA rtDefault defaultContext) = true /\
  isOk (verifyRefreshToken envB rtDefault defaultContext) = true /\
  map call_pc
      (runSchedule defaultContext alternating (twoCalls, firstRefresh.2)).1
  = [Settled (Throw ConcurrentUsageDetected);
     Settled (Throw ConcurrentUsageDetected)] /\
  map returnedPair
      (runSchedule noDetectionContext alternating (twoCalls, firstRefresh.2)).1
  = [true; true].
Proof. vm_compute. split_and!; reflexivity. Qed.


(** ** C2 *)

(** C2, counterexample. With rotation enabled and concurrent-usage
    detection disabled, the second [refreshTokens] of the same token
    succeeds as well. And with the default options, once the token issued
    by the first refresh has itself been refreshed twice (which revokes
    every token of the user), the second [refreshTokens] of the original
    token fails with "Invalid refresh token". *)
Lemma reuse_not_always_reported :
  let issued := issueIn noDetectionContext None in
  let rt := refreshToken (pairOf issued) in
  let first := refreshTokens envA rt noDetectionContext None issued.2 in
  let second := refreshTokens envB rt noDetectionContext None first.2 in
  let newToken := refreshToken (pairOf firstRefresh) in
  let next := refreshTokens envB newToken defaultContext None firstRefresh.2 in
  let replay := refreshTokens envB newToken defaultContext None next.2 in
  let again := refreshTokens envB rtDefault defaultContext None replay.2 in
  enableTokenRotation (securityOptions noDetectionContext) = true /\
  isOk first.1 = true /\ isOk second.1 = true /\
  enableTokenRotation (securityOptions defaultContext) = true /\
  isOk firstRefresh.1 = true /\ isOk next.1 = true /\
  replay.1 = Throw ConcurrentUsageDetected /\
  again.1 = Throw InvalidRefreshToken.
Proof. vm_compute. split_and!; reflexivity. Qed.

Lemma rotated_token_is_rejected_witness :
  usedRecord rtDefault firstRefresh.2 /\
  forall (e2 : Env) (deviceInfo2 : option DeviceInfo) (st2 : MemoryStorage),
    usedRecord rtDefault st2 ->
    isOk (verifyRefreshToken e2 rtDefault defaultContext) = true ->
    exists st3,
      refreshTokens e2 rtDefault defaultContext deviceInfo2 st2
      = (Throw ConcurrentUsageDetected, st3) /\
      tokens st3 !! rtDefault = None.
Proof.
  apply (rotated_token_is_rejected envA rtDefault defaultContext None
           issuedDefault.2 (pairOf firstRefresh) firstRefresh.2).
  - reflexivity.
  - reflexivity.
  - apply (pairOf_ok firstRefresh). vm_compute. reflexivity.
  - vm_compute. discriminate.
Defined.

(** ** C3 *)

(** C3, counterexample. With concurrent-usage detection disabled, the
    security checks accept a record that is marked used, and revoke
    nothing. *)
Lemma used_record_accepted_without_detection :
  let outcome :=
    performSecurityChecks (mkEnv 5 "jti-1") 0%nat staleDecoded
                          noDetectionContext None staleStore in
  heap staleStore !! 0%nat = Some staleRecord /\
  isUsed staleRecord = true /\
  outcome.1 = Ok tt /\
  tokens outcome.2 !! staleToken = Some 0%nat.
Proof. vm_compute. split_and!; reflexivity. Qed.

(** The witness is a record that is used, expired and presented from
    another device, under device binding. *)
Lemma used_record_revokes_all_of_user_witness :
  exists st',
    performSecurityChecks (mkEnv 1000000 "jti-1") 0%nat staleDecoded
                          bindingContext (device "device-B") staleStore
    = (Throw ConcurrentUsageDetected, st') /\
    noRecordOf (UStr "u1") st' /\
    (forall tok ref, tokens staleStore !! tok = Some ref ->
                     ~ ownedBy (heap staleStore) (UStr "u1") ref ->
                     tokens st' !! tok = Some ref).
Proof.
  apply (used_record_revokes_all_of_user (mkEnv 1000000 "jti-1") 0%nat
           staleDecoded bindingContext (device "device-B") staleStore staleRecord).
  - reflexivity.
  - reflexivity.
  - reflexivity.
Defined.

(** ** C4 *)


(** ** C5 *)

(** C5. With the expiries "15m" and "7d", issuance at instant 0 signs the
    refresh token with the access expiry: it expires after 900 seconds, as
    the access token does, while the record persisted for it expires after
    604800000 ms (7 days). The variant that converts with [parseExpiry]
    signs it for 604800000 seconds. *)
Theorem refresh_token_signed_under_access_expiry :
  let e := mkEnv 0 "jti-0" in
  let issued := generateTokenPair e sampleUser defaultContext None
                                  createMemoryStorage in
  let issued' := generateTokenPair_parseExpiry e sampleUser defaultContext None
                                               createMemoryStorage in
  accessTokenExpiry (config defaultContext) = "15m" /\
  refreshTokenExpiry (config defaultContext) = "7d" /\
  isOk issued.1 = true /\
  tokenExp (accessToken (pairOf issued)) = Some 900 /\
  tokenExp (refreshToken (pairOf issued)) = Some 900 /\
  expiresAt <$> heap issued.2 !! 0%nat = Some 604800000 /\
  isOk issued'.1 = true /\
  tokenExp (refreshToken (pairOf issued')) = Some 604800000 /\
  expiresAt <$> heap issued'.2 !! 0%nat = Some 604800000.
Proof. vm_compute. split_and!; reflexivity. Qed.

(** ** C6 *)

Lemma seven_days_is_malformed : ~ expiry_well_formed "7 days".
Proof.
  intros Hwf. apply parseExpiry_ok_iff in Hwf. vm_compute in Hwf. discriminate.
Qed.

(** C6, counterexample. The refresh expiry "7 days" is not of the stated
    format, [createAuthContext] returns a context all the same, and the
    format error appears when [generateTokenPair] runs. *)
Lemma malformed_expiry_accepted_at_construction :
  let context := createAuthContext malformedConfig noSecurityOptions in
  ~ expiry_well_formed "7 days" /\
  refreshTokenExpiry (config context) = "7 days" /\
  (generateTokenPair envA sampleUser context None createMemoryStorage).1
  = Throw (InvalidExpiryFormat "7 days").
Proof.
  split; [apply seven_days_is_malformed|]. vm_compute. split; reflexivity.
Qed.

Lemma malformed_expiry_fails_at_issuance_witness :
  let context := createAuthContext malformedConfig noSecurityOptions in
  refreshTokenExpiry (config context) = "7 days" /\
  isOk (generateTokenPair envA sampleUser context None createMemoryStorage).1
  = false /\
  (generateTokenPair envA sampleUser context None createMemoryStorage).2
  = createMemoryStorage /\
  (isOk (generateAccessToken envA sampleUser context) = true ->
   isOk (generateRefreshToken envA sampleUser context None) = true ->
   generateTokenPair envA sampleUser context None createMemoryStorage
   = (Throw (InvalidExpiryFormat "7 days"), createMemoryStorage)) /\
  isOk (generateTokenPair_parseExpiry envA sampleUser context None
                                      createMemoryStorage).1 = false.
Proof.
  apply (malformed_expiry_fails_at_issuance malformedConfig noSecurityOptions
           "7 days" envA
           sampleUser None createMemoryStorage).
  - reflexivity.
  - apply seven_days_is_malformed.
Defined.

(** ** C7 *)

(** C7, counterexample. A token bound to "device-A" is presented with the
    empty fingerprint, which differs from "device-A": the refresh is not
    refused, and the token is consumed (its record is marked used). The
    same token presented from "device-B" after it has been refreshed once
    is refused as a replay, not as a device mismatch, and the records of
    its user are removed. *)
Lemma device_mismatch_not_always_reported :
  let outcome :=
    refreshTokens envA rtBound bindingContext (device "") issuedBound.2 in
  let first :=
    refreshTokens envA rtBound bindingContext (device "device-A") issuedBound.2 in
  let second :=
    refreshTokens envB rtBound bindingContext (device "device-B") first.2 in
  tokenClaims rtBound ≫= c_deviceHash = Some "sha256:device-A" /\
  isOk outcome.1 = true /\
  isUsed <$> heap issuedBound.2 !! 0%nat = Some false /\
  isUsed <$> heap outcome.2 !! 0%nat = Some true /\
  isOk first.1 = true /\
  second.1 = Throw ConcurrentUsageDetected /\
  tokens second.2 !! rtBound = None.
Proof. vm_compute. split_and!; reflexivity. Qed.

Lemma device_mismatch_does_not_consume_witness :
  refreshTokens envA (refreshToken (pairOf issuedBound)) bindingContext
                (device "device-B") issuedBound.2
  = (Throw DeviceMismatch, issuedBound.2) /\
  exists pair2 st2,
    refreshTokens envB (refreshToken (pairOf issuedBound)) bindingContext
                  (device "device-A") issuedBound.2
    = (Ok pair2, st2).
Proof.
  apply (device_mismatch_does_not_consume (mkEnv 1000000 "jti-0") envA envB
           sampleUser bindingContext (device "device-A") (device "device-B")
           (device "device-A") "device-A" "device-B" createMemoryStorage
           (pairOf issuedBound) issuedBound.2 604800000).
  - reflexivity.
  - reflexivity.
  - reflexivity.
  - reflexivity.
  - vm_compute. discriminate.
  - apply (pairOf_ok issuedBound). vm_compute. reflexivity.
  - vm_compute. reflexivity.
  - vm_compute. reflexivity.
  - vm_compute. reflexivity.
  - vm_compute. discriminate.
Defined.

(** ** C10 *)

Lemma refresh_without_fingerprint_succeeds_witness :
  tokenClaims (refreshToken (pairOf issuedBound)) ≫= c_deviceHash
  = Some (generateDeviceHash "device-A") /\
  (forall decoded, checkDeviceFingerprint decoded None = Ok tt) /\
  exists pair1 st2,
    refreshTokens envA (refreshToken (pairOf issuedBound)) bindingContext None
                  issuedBound.2 = (Ok pair1, st2).
Proof.
  apply (refresh_without_fingerprint_succeeds (mkEnv 1000000 "jti-0") envA
           sampleUser bindingContext (device "device-A") None "device-A"
           createMemoryStorage (pairOf issuedBound) issuedBound.2 604800000).
  - reflexivity.
  - reflexivity.
  - apply (pairOf_ok issuedBound). vm_compute. reflexivity.
  - reflexivity.
  - vm_compute. reflexivity.
  - vm_compute. reflexivity.
  - vm_compute. discriminate.
Defined.

End RunsProperties.

(** ** The further properties on concrete runs *)

Section MoreRunsProperties.
#[local] Existing Instance sampleLibs.

Lemma outcome_of_fst {A B} (r : A * B) (x : A) : r.1 = x -> r = (x, r.2).
Proof. destruct r. simpl. by intros ->. Qed.

Lemma parseExpiry_format_witness :
  parseExpiry "15min" = Throw (InvalidExpiryFormat "15min").
Proof.
  apply (proj2 (parseExpiry_format "15min")).
  intros Hwf. apply (proj1 (parseExpiry_format "15min")) in Hwf.
  destruct Hwf as [v Hv]. vm_compute in Hv. discriminate.
Defined.

Lemma parseExpiry_value_witness :
  parseExpiry ("7" +:+ String "d" EmptyString) = Ok (parseInt "7" * 86400000) /\
  0 <= parseInt "7" * 86400000 /\
  (parseInt "7" * 86400000) `mod` 1000 = 0.
Proof.
  apply (parseExpiry_value "7" "d" 86400000).
  - discriminate.
  - reflexivity.
  - reflexivity.
  - vm_compute. discriminate.
Defined.

Lemma issued_access_token_round_trip_witness :
  exists m,
    ms (accessTokenExpiry (config defaultContext)) = Some m /\
    verifyAccessToken envA (accessToken (pairOf issuedDefault)) defaultContext
    = if decide (e_now (mkEnv 1000000 "jti-0") `div` 1000 + m `div` 1000
                 <= e_now envA `div` 1000)
      then Throw JwtExpired
      else Ok (mkPayload
                 {| c_userId := user_id sampleUser; c_email := user_email sampleUser;
                    c_type := Some "access"; c_jti := None;
                    c_deviceHash := None |}
                 (e_now (mkEnv 1000000 "jti-0") `div` 1000)
                 (Some (e_now (mkEnv 1000000 "jti-0") `div` 1000 + m `div` 1000))).
Proof.
  apply (issued_access_token_round_trip (mkEnv 1000000 "jti-0") envA sampleUser
           defaultContext None createMemoryStorage issuedDefault.2
           (pairOf issuedDefault)).
  apply (pairOf_ok issuedDefault). vm_compute. reflexivity.
Defined.

Lemma issued_tokens_are_not_interchangeable_witness :
  isOk (verifyRefreshToken envA (accessToken (pairOf issuedShared))
                           sharedSecretContext) = false /\
  isOk (verifyAccessToken envA (refreshToken (pairOf issuedShared))
                          sharedSecretContext) = false.
Proof.
  apply (issued_tokens_are_not_interchangeable (mkEnv 1000000 "jti-0") envA
           sampleUser sharedSecretContext None createMemoryStorage issuedShared.2
           (pairOf issuedShared)).
  apply (pairOf_ok issuedShared). vm_compute. reflexivity.
Defined.

Lemma untyped_variant_confuses_kinds_witness :
  verifyRefreshToken_untyped envA accessShared sharedSecretContext
  = Ok sharedDecoded /\
  c_type (p_claims sharedDecoded) = Some "access" /\
  isOk (verifyRefreshToken envA accessShared sharedSecretContext) = false.
Proof.
  apply (untyped_variant_confuses_kinds envA accessShared sharedSecretContext
           sharedDecoded).
  - reflexivity.
  - vm_compute. reflexivity.
Defined.

(** The token of [issuedDefault], marked used by its first refresh, is
    presented again at [envB]: it verifies, its record is read and the
    reuse check revokes the records of the user. The object stays marked. *)
Lemma used_mark_is_permanent_witness :
  usedAt firstRefresh.2 0%nat /\
  (refreshTokens envB rtDefault defaultContext None firstRefresh.2).1
  = Throw ConcurrentUsageDetected /\
  usedAt (perform defaultContext envB (Refresh rtDefault None) firstRefresh.2)
         0%nat.
Proof.
  assert (usedAt firstRefresh.2 0%nat) as Hused
    by (eexists; split; vm_compute; reflexivity).
  split_and!; [exact Hused|vm_compute; reflexivity|].
  exact (used_mark_is_permanent defaultContext envB (Refresh rtDefault None)
           firstRefresh.2 0%nat Hused).
Defined.

Lemma logoutDevice_revokes_one_token_witness :
  refreshTokens envA rtDefault defaultContext None
                (logoutDevice rtDefault issuedDefault.2).2
  = (Throw InvalidRefreshToken, (logoutDevice rtDefault issuedDefault.2).2).
Proof.
  apply (proj2 (proj2 (proj2
           (logoutDevice_revokes_one_token envA rtDefault defaultContext None
              issuedDefault.2)))).
  vm_compute. reflexivity.
Defined.

Lemma refresh_rejected_before_any_write_witness :
  refreshTokens envA (Garbage "x") defaultContext None issuedDefault.2
  = (Throw JwtMalformed, issuedDefault.2) /\
  refreshTokens envA rtDefault defaultContext None createMemoryStorage
  = (Throw InvalidRefreshToken, createMemoryStorage).
Proof.
  split.
  - apply (proj1 (refresh_rejected_before_any_write envA (Garbage "x")
                    defaultContext None issuedDefault.2)).
    reflexivity.
  - apply (proj2 (refresh_rejected_before_any_write envA rtDefault
                    defaultContext None createMemoryStorage)).
    + vm_compute. reflexivity.
    + apply lookup_empty.
Defined.

Lemma expired_record_is_removed_witness :
  let st1 := (refreshTokens envLate rtShort shortRecordContext None
                            issuedShort.2).2 in
  (refreshTokens envLate rtShort shortRecordContext None issuedShort.2).1
  = Throw RefreshTokenExpired /\
  tokens st1 = delete rtShort (tokens issuedShort.2) /\
  heap st1 = heap issuedShort.2 /\
  refreshTokens envLate rtShort shortRecordContext None st1
  = (Throw InvalidRefreshToken, st1).
Proof.
  eapply (expired_record_is_removed envLate rtShort shortRecordContext None
            issuedShort.2 _ 0%nat _).
  - unfold issuedShort, issueIn. apply storeOk_generate, storeOk_empty.
  - vm_compute. reflexivity.
  - vm_compute. reflexivity.
  - vm_compute. reflexivity.
  - reflexivity.
  - reflexivity.
  - vm_compute. reflexivity.
Defined.

Lemma refresh_reissues_for_the_same_subject_witness :
  exists decoded m ref,
    verifyRefreshToken envA rtDefault defaultContext = Ok decoded /\
    accessToken (pairOf firstRefresh)
    = Signed (accessTokenSecret (config defaultContext))
        {| c_userId := c_userId (p_claims decoded); c_email := None;
           c_type := Some "access"; c_jti := None; c_deviceHash := None |}
        (e_now envA `div` 1000) (Some (e_now envA `div` 1000 + m `div` 1000)) /\
    refreshToken (pairOf firstRefresh)
    = Signed (refreshTokenSecret (config defaultContext))
        {| c_userId := c_userId (p_claims decoded); c_email := None;
           c_type := Some "refresh"; c_jti := Some (e_jti envA);
           c_deviceHash := payloadDeviceHash defaultContext None |}
        (e_now envA `div` 1000) (Some (e_now envA `div` 1000 + m `div` 1000)) /\
    tokens firstRefresh.2 !! refreshToken (pairOf firstRefresh) = Some ref /\
    (exists d, heap firstRefresh.2 !! ref = Some d /\ isUsed d = false /\
               userId d = c_userId (p_claims decoded) /\
               token d = refreshToken (pairOf firstRefresh)) /\
    (forall tok, tok <> refreshToken (pairOf firstRefresh) ->
                 tokens firstRefresh.2 !! tok = tokens issuedDefault.2 !! tok).
Proof.
  apply (refresh_reissues_for_the_same_subject envA rtDefault defaultContext None
           issuedDefault.2 firstRefresh.2 (pairOf firstRefresh)).
  apply (pairOf_ok firstRefresh). vm_compute. reflexivity.
Defined.

Lemma without_rotation_token_stays_usable_witness :
  isOk (refreshTokens envB rtNoRotation noRotationContext None
                      refreshedNoRotation.2).1 = true.
Proof.
  apply (without_rotation_token_stays_usable envA envB rtNoRotation
           noRotationContext None issuedNoRotation.2 refreshedNoRotation.2
           (pairOf refreshedNoRotation)).
  - reflexivity.
  - apply (pairOf_ok refreshedNoRotation). vm_compute. reflexivity.
  - vm_compute. discriminate.
  - vm_compute. reflexivity.
  - intros ref d Href Hd. vm_compute in Href. injection Href as <-.
    vm_compute in Hd. injection Hd as <-. vm_compute. discriminate.
Defined.

Lemma replay_revokes_every_token_of_the_subject_witness :
  exists uid,
    tokenSubject rtDefault = Some uid /\
    forall (e2 : Env) (tok : Token) (deviceInfo2 : option DeviceInfo),
      tokenSubject tok = Some uid ->
      tokens replayed.2 !! tok = None /\
      isOk (refreshTokens e2 tok defaultContext deviceInfo2 replayed.2).1 = false /\
      (isOk (verifyRefreshToken e2 tok defaultContext) = true ->
       refreshTokens e2 tok defaultContext deviceInfo2 replayed.2
       = (Throw InvalidRefreshToken, replayed.2)).
Proof.
  apply (replay_revokes_every_token_of_the_subject envB rtDefault defaultContext
           None firstRefresh.2 replayed.2).
  - unfold firstRefresh. apply storeOk_refresh.
    unfold issuedDefault, issueIn. apply storeOk_generate, storeOk_empty.
  - apply (outcome_of_fst replayed). vm_compute. reflexivity.
Defined.

Lemma no_device_binding_when_disabled_witness :
  (forall tok,
     generateRefreshToken envA sampleUser defaultContext (device "device-B") = Ok tok ->
     tokenClaims tok ≫= c_deviceHash = None) /\
  (refreshTokens envA rtDefault defaultContext (device "device-B")
                 issuedDefault.2).1 <> Throw DeviceMismatch.
Proof.
  apply (no_device_binding_when_disabled envA sampleUser rtDefault defaultContext
           (device "device-B") issuedDefault.2).
  reflexivity.
Defined.

End MoreRunsProperties.

(** * Properties of the rate-limit engine *)

Module RateLimitFacts.
Import RateLimit.

(** ** Timers *)

Lemma fire_lookup_other {V} (now : Z) (uid : string) (timers : list (Z * string))
    (m : gmap string V) :
  Forall (fun tm => tm.2 = uid -> now < tm.1) timers ->
  foldl (fun m t => if bool_decide (t.1 <= now) then delete t.2 m else m) m timers
  !! uid = m !! uid.
Proof.
  intros Hall. revert m. induction Hall as [|[due k] timers Hhd _ IH]; intros m.
  - done.
  - simpl. rewrite IH. simpl in Hhd. case_bool_decide as Hdue; [|done].
    apply lookup_delete_ne. intros ->. specialize (Hhd eq_refl). lia.
Qed.

Lemma runTimers_lockout_entry now t uid st :
  now <= t -> noLockoutTimerDue uid t st ->
  bruteForceEntries (runTimers now st) !! uid = bruteForceEntries st !! uid /\
  noLockoutTimerDue uid t (runTimers now st).
Proof.
  intros Hle Hno. split.
  - simpl. apply fire_lookup_other.
    eapply Forall_impl; [exact Hno|]. simpl. intros tm Htm Hk.
    specialize (Htm Hk). lia.
  - unfold noLockoutTimerDue. simpl.
    apply Forall_forall. intros tm Hin. apply list_elem_of_filter in Hin as [_ Hin].
    unfold noLockoutTimerDue in Hno. rewrite Forall_forall in Hno. by apply Hno.
Qed.

(** ** Brute-force lockout *)

Section Lockout.
Variable context : RateLimitContext.
Variable uid : string.
Hypothesis uid_given : uid <> "".
Hypothesis protection_on : enabled (bruteForce (options context)) = true.

Lemma recordRateLimitAttempt_lockout now identifier success st :
  bruteForceEntries (recordRateLimitAttempt now identifier context success st)
  = bruteForceEntries st /\
  bruteForceTimers (recordRateLimitAttempt now identifier context success st)
  = bruteForceTimers st.
Proof.
  unfold recordRateLimitAttempt.
  destruct (success && _); [done|]. by destruct (negb success && _).
Qed.

Lemma counted_failure t0 t c now identifier st :
  t0 <= now <= t ->
  t < t0 + timerDelay (lockoutDurationMs (bruteForce (options context))) ->
  0 <= c ->
  counted uid t c st ->
  counted uid t (c + 1) (recordAttemptAt now identifier context false (Some uid) st).
Proof.
  intros Hnow Ht Hc (Htimers & Hcount & Hlock & Hsome).
  destruct (runTimers_lockout_entry now t uid st) as [Hentry Htimers'];
    [lia|done|].
  unfold recordAttemptAt, recordAttempt.
  rewrite (truthy_Some_intro uid uid_given).
  destruct (recordRateLimitAttempt_lockout now identifier false (runTimers now st))
    as [He Ht'].
  set (st1 := recordRateLimitAttempt now identifier context false (runTimers now st))
    in *.
  unfold recordBruteForceAttempt. rewrite protection_on. simpl.
  unfold counted, noLockoutTimerDue, failedAttemptsOf. simpl.
  rewrite He, Ht', Hentry. split_and!.
  - apply Forall_app. split; [exact Htimers'|].
    apply Forall_singleton. simpl. intros _. lia.
  - rewrite lookup_insert_eq. simpl. unfold failedAttemptsOf in Hcount.
    destruct (bruteForceEntries st !! uid) as [entry|]; simpl in *; lia.
  - rewrite lookup_insert_eq. simpl.
    by destruct (bruteForceEntries st !! uid) as [entry|].
  - intros _. rewrite lookup_insert_eq. by eexists.
Qed.

Lemma counted_failures t0 t failures c st :
  Forall (fun a => t0 <= a.1 <= t) failures ->
  t < t0 + timerDelay (lockoutDurationMs (bruteForce (options context))) ->
  0 <= c ->
  counted uid t c st ->
  counted uid t (c + Z.of_nat (length failures)) (recordFailures context uid failures st).
Proof.
  intros Hall Ht. revert c st.
  induction Hall as [|[now identifier] failures Hhd _ IH]; intros c st Hc Hcounted.
  - simpl. by rewrite Z.add_0_r.
  - simpl length. rewrite Nat2Z.inj_succ.
    replace (c + Z.succ (Z.of_nat (length failures)))
      with ((c + 1) + Z.of_nat (length failures)) by lia.
    unfold recordFailures. simpl foldl.
    apply IH; [lia|]. by eapply counted_failure.
Qed.

(** A check that finds the account at or over the threshold locks it. *)
Lemma check_locks_counted t c identifier st :
  isWhitelisted identifier (whitelist (options context)) = false ->
  isBlacklisted identifier (blacklist (options context)) = false ->
  maxFailedAttempts (bruteForce (options context)) <= c ->
  0 < c ->
  counted uid t c st ->
  let out := checkRateLimitAt t identifier context (Some uid) st in
  allowed out.1 = false /\
  reason out.1 = Some "Account locked due to too many failed attempts" /\
  retryAfter out.1 = Some (lockoutDurationMs (bruteForce (options context))) /\
  bruteForceEntries out.2 !! uid ≫= lockedUntil
  = Some (t + lockoutDurationMs (bruteForce (options context))).
Proof.
  intros Hwl Hbl Hmax Hpos (Htimers & Hcount & Hlock & Hsome).
  destruct (runTimers_lockout_entry t t uid st) as [Hentry _]; [lia|done|].
  unfold checkRateLimitAt, checkRateLimit, checkIPSecurity.
  rewrite Hwl, Hbl. rewrite (truthy_Some_intro uid uid_given).
  unfold checkBruteForceProtection, getBruteForceEntry.
  rewrite protection_on. simpl negb. cbv iota. rewrite Hentry.
  destruct (Hsome Hpos) as [entry Hentry'].
  unfold failedAttemptsOf in Hcount. rewrite Hentry' in Hcount, Hlock |- *.
  simpl in Hcount, Hlock. rewrite Hlock.
  rewrite bool_decide_true by lia.
  simpl. rewrite lookup_insert_eq. done.
Qed.

End Lockout.


(** ** The attempt window *)

(** On an entry that is not blocked and whose window has expired,
    [checkRateLimitEntry] allows the request with [maxAttempts - 1]
    remaining and leaves the store as it is; the next recorded attempt
    increments the same entry and keeps its [firstAttempt]. *)
Lemma expired_window_is_not_reset (now now' : Z) (identifier : string)
    (context : RateLimitContext) (st : Store) (entry : RateLimitEntry) :
  rateLimitEntries st !! keyGenerator (options context) identifier = Some entry ->
  isBlocked now (blockedUntil entry) = false ->
  now - firstAttempt entry > windowMs (options context) ->
  skipFailedRequests (options context) = false ->
  checkRateLimitEntry now identifier context st
  = ({| allowed := true; remaining := maxAttempts (options context) - 1;
        resetTime := now + windowMs (options context);
        retryAfter := None; reason := None |}, st) /\
  rateLimitEntries (recordRateLimitAttempt now' identifier context false st)
  !! keyGenerator (options context) identifier
  = Some {| attempts := attempts entry + 1;
            firstAttempt := firstAttempt entry;
            lastAttempt := now';
            blockedUntil := blockedUntil entry;
            successfulAttempts := successfulAttempts entry;
            entry_failedAttempts := entry_failedAttempts entry |}.
Proof.
  intros Hentry Hblocked Hexpired Hskip. split.
  - unfold checkRateLimitEntry, getRateLimitEntry. rewrite Hentry, Hblocked.
    unfold isWindowExpired. by rewrite bool_decide_true.
  - unfold recordRateLimitAttempt. rewrite Hskip. simpl.
    rewrite Hentry. by rewrite lookup_insert_eq.
Qed.

End RateLimitFacts.

Module RateLimitRunsFacts.
Import RateLimit RateLimitRuns RateLimitFacts.

(** ** C8 *)

(** C8. [maxAttempts = 3], [windowMs = 1000], [blockDurationMs = 5000]. An
    attempt is recorded at instant 0. At instant 1500 the window has expired
    and the check allows with 2 remaining, but nothing is reset: the four
    attempts recorded at 1500 .. 1750 are added to the old entry, whose
    [firstAttempt] stays 0, so at instant 1800 the entry counts 5 attempts
    and the check still allows with 2 remaining. Counted against a window
    that starts at 1500 (the same four attempts after the entry is cleared)
    the check at 1800 denies. *)
Theorem expired_window_keeps_stale_counter :
  let key := keyGenerator (options windowContext) address in
  let check1 := checkRateLimitAt 1500 address windowContext None afterFirstAttempt in
  let stale := burst check1.2 in
  let check2 := checkRateLimitAt 1800 address windowContext None stale in
  let fresh := burst (unlockIP address windowContext check1.2) in
  let check3 := checkRateLimitAt 1800 address windowContext None fresh in
  (allowed check1.1, remaining check1.1) = (true, 2) /\
  firstAttempt <$> rateLimitEntries stale !! key = Some 0 /\
  attempts <$> rateLimitEntries stale !! key = Some 5 /\
  (allowed check2.1, remaining check2.1) = (true, 2) /\
  firstAttempt <$> rateLimitEntries fresh !! key = Some 1500 /\
  attempts <$> rateLimitEntries fresh !! key = Some 4 /\
  allowed check3.1 = false.
Proof. vm_compute. split_and!; reflexivity. Qed.

(** ** C9 *)



Lemma expired_window_is_not_reset_witness :
  let key := keyGenerator (options windowContext) address in
  checkRateLimitEntry 1500 address windowContext afterFirstAttempt
  = ({| allowed := true; remaining := 2; resetTime := 2500;
        retryAfter := None; reason := None |}, afterFirstAttempt) /\
  firstAttempt <$>
    rateLimitEntries (recordRateLimitAttempt 1500 address windowContext false
                                             afterFirstAttempt) !! key
  = Some 0.
Proof.
  intros key.
  destruct (expired_window_is_not_reset 1500 1500 address windowContext
              afterFirstAttempt
              {| attempts := 1; firstAttempt := 0; lastAttempt := 0;
                 blockedUntil := None; successfulAttempts := None;
                 entry_failedAttempts := None |})
    as [Hcheck Hrecord].
  - vm_compute. reflexivity.
  - reflexivity.
  - vm_compute. reflexivity.
  - reflexivity.
  - split; [exact Hcheck|]. unfold key. rewrite Hrecord. reflexivity.
Defined.

End RateLimitRunsFacts.

(** * Further properties of the rate-limit engine *)

Module RateLimitMore.
Import RateLimit RateLimitScenarios RateLimitFacts.

(** ** Lists and the shape of a decision *)

(** X18. A whitelisted identifier is allowed whatever the blacklist, the
    account and the store say, and a blacklisted one that is not
    whitelisted is denied with "IP blacklisted"; in both cases the store
    is neither read nor written. *)
Theorem listed_identifiers_are_decided_first (now : Z) (identifier : string)
    (context : RateLimitContext) (uid : option string) (st : Store) :
  (isWhitelisted identifier (whitelist (options context)) = true ->
   checkRateLimit now identifier context uid st
   = ({| allowed := true; remaining := maxAttempts (options context);
         resetTime := now + windowMs (options context);
         retryAfter := None; reason := None |}, st)) /\
  (isWhitelisted identifier (whitelist (options context)) = false ->
   isBlacklisted identifier (blacklist (options context)) = true ->
   checkRateLimit now identifier context uid st
   = ({| allowed := false; remaining := 0;
         resetTime := now + blockDurationMs (options context);
         retryAfter := Some (blockDurationMs (options context));
         reason := Some "IP blacklisted" |}, st)).
Proof.
  unfold checkRateLimit, checkIPSecurity. split.
  - by intros ->.
  - by intros -> ->.
Qed.

(** X19. Every decision of [checkRateLimit] is well formed: an allowed one
    carries neither a reason nor a retry delay, a denied one carries both
    and no remaining attempts, and with [maxAttempts >= 1] the remaining
    count is never negative. *)
Theorem decision_is_well_formed (now : Z) (identifier : string)
    (context : RateLimitContext) (uid : option string) (st : Store) :
  let d := (checkRateLimit now identifier context uid st).1 in
  (allowed d = true -> retryAfter d = None /\ reason d = None) /\
  (allowed d = false ->
   remaining d = 0 /\ is_Some (retryAfter d) /\ is_Some (reason d)) /\
  (1 <= maxAttempts (options context) -> 0 <= remaining d).
Proof.
  unfold checkRateLimit, checkIPSecurity.
  destruct (isWhitelisted _ _); [simpl; split_and!; (done || lia)|].
  destruct (isBlacklisted _ _); [simpl; split_and!; (done || eauto || lia)|].
  assert (forall st',
    let d := (checkRateLimitEntry now identifier context st').1 in
    (allowed d = true -> retryAfter d = None /\ reason d = None) /\
    (allowed d = false ->
     remaining d = 0 /\ is_Some (retryAfter d) /\ is_Some (reason d)) /\
    (1 <= maxAttempts (options context) -> 0 <= remaining d)) as Hentry.
  { intros st'. unfold checkRateLimitEntry, getRateLimitEntry.
    destruct (rateLimitEntries st' !! _) as [entry|];
      [|simpl; split_and!; (done || lia)].
    destruct (isBlocked _ _); [simpl; split_and!; (done || eauto || lia)|].
    destruct (isWindowExpired _ _ _); [simpl; split_and!; (done || lia)|].
    case_bool_decide; simpl; split_and!;
      (done || eauto || unfold calculateRemainingAttempts; lia). }
  destruct (truthy uid) as [u|]; [|apply Hentry].
  unfold checkBruteForceProtection, getBruteForceEntry.
  destruct (negb _); [apply Hentry|].
  destruct (bruteForceEntries st !! u) as [entry|]; [|apply Hentry].
  destruct (match lockedUntil entry with Some l => _ | None => _ end);
    [simpl; split_and!; (done || eauto || lia)|].
  case_bool_decide; [simpl; split_and!; (done || eauto || lia)|apply Hentry].
Qed.

(** ** Counting attempts *)

Lemma runTimers_rate_entry now t key st :
  now <= t -> noRateTimerDue key t st ->
  rateLimitEntries (runTimers now st) !! key = rateLimitEntries st !! key /\
  noRateTimerDue key t (runTimers now st).
Proof.
  intros Hle Hno. split.
  - simpl. apply fire_lookup_other.
    eapply Forall_impl; [exact Hno|]. simpl. intros tm Htm Hk.
    specialize (Htm Hk). lia.
  - unfold noRateTimerDue. simpl.
    apply Forall_forall. intros tm Hin. apply list_elem_of_filter in Hin as [_ Hin].
    unfold noRateTimerDue in Hno. rewrite Forall_forall in Hno. by apply Hno.
Qed.

Lemma recordBruteForceAttempt_rate now uid context success st :
  rateLimitEntries (recordBruteForceAttempt now uid context success st)
  = rateLimitEntries st /\
  rateLimitTimers (recordBruteForceAttempt now uid context success st)
  = rateLimitTimers st /\
  alertLog (recordBruteForceAttempt now uid context success st) = alertLog st.
Proof.
  unfold recordBruteForceAttempt. destruct (negb _); [done|].
  destruct success; [|done]. by destruct (resetCountOnSuccess _).
Qed.

Lemma recordAttempt_rate now identifier context success uid st :
  rateLimitEntries (recordAttempt now identifier context success uid st)
  = rateLimitEntries (recordRateLimitAttempt now identifier context success st) /\
  rateLimitTimers (recordAttempt now identifier context success uid st)
  = rateLimitTimers (recordRateLimitAttempt now identifier context success st).
Proof.
  unfold recordAttempt. destruct (truthy uid) as [u|]; [|done].
  destruct (recordBruteForceAttempt_rate now u context success
              (recordRateLimitAttempt now identifier context success st))
    as (-> & -> & _). done.
Qed.

Section Counting.
Variable context : RateLimitContext.
Variable identifier : string.
Variable success : bool.
Variable uid : option string.
Hypothesis counted_attempt : notSkipped context success.

Let key := keyGenerator (options context) identifier.
Let ttl := Z.max (windowMs (options context)) (blockDurationMs (options context)).

Lemma recordRateLimitAttempt_counts now st :
  rateLimitEntries (recordRateLimitAttempt now identifier context success st)
  = <[key := (incrementAttempts now key ttl st).1]> (rateLimitEntries st) /\
  rateLimitTimers (recordRateLimitAttempt now identifier context success st)
  = rateLimitTimers st ++ [(now + timerDelay ttl, key)].
Proof.
  destruct counted_attempt as [H1 H2].
  unfold recordRateLimitAttempt. rewrite H1, H2. done.
Qed.

Lemma tracked_first t1 t st :
  t1 <= t -> t < t1 + timerDelay ttl ->
  rateLimitEntries st !! key = None -> noRateTimerDue key t st ->
  tracked key t t1 1 (recordAttemptAt t1 identifier context success uid st).
Proof.
  intros Hle Ht Hnone Hno.
  destruct (runTimers_rate_entry t1 t key st Hle Hno) as [Hentry Hno'].
  unfold recordAttemptAt.
  destruct (recordAttempt_rate t1 identifier context success uid (runTimers t1 st))
    as [He Htm].
  destruct (recordRateLimitAttempt_counts t1 (runTimers t1 st)) as [He' Htm'].
  unfold tracked, noRateTimerDue. rewrite He, Htm, He', Htm'. split.
  - apply Forall_app. split; [exact Hno'|].
    apply Forall_singleton. simpl. intros _. lia.
  - eexists. split; [apply lookup_insert_eq|].
    unfold incrementAttempts. cbn [fst]. rewrite Hentry, Hnone. done.
Qed.

Lemma tracked_next t0 t first c now st :
  t0 <= now <= t -> t < t0 + timerDelay ttl ->
  tracked key t first c st ->
  tracked key t first (c + 1)
          (recordAttemptAt now identifier context success uid st).
Proof.
  intros Hnow Ht (Hno & entry & Hentry & Hc & Hf & Hb).
  destruct (runTimers_rate_entry now t key st) as [Hentry' Hno']; [lia|done|].
  unfold recordAttemptAt.
  destruct (recordAttempt_rate now identifier context success uid (runTimers now st))
    as [He Htm].
  destruct (recordRateLimitAttempt_counts now (runTimers now st)) as [He' Htm'].
  unfold tracked, noRateTimerDue. rewrite He, Htm, He', Htm'. split.
  - apply Forall_app. split; [exact Hno'|].
    apply Forall_singleton. simpl. intros _. lia.
  - eexists. split; [apply lookup_insert_eq|].
    unfold incrementAttempts. cbn [fst]. rewrite Hentry', Hentry. simpl.
    by rewrite Hc, Hf, Hb.
Qed.

Lemma tracked_all t0 t first c times st :
  Forall (fun ti => t0 <= ti <= t) times -> t < t0 + timerDelay ttl ->
  tracked key t first c st ->
  tracked key t first (c + Z.of_nat (length times))
          (recordAttempts context identifier success uid times st).
Proof.
  intros Hall Ht. revert c st.
  induction Hall as [|now times Hhd _ IH]; intros c st Htr.
  - simpl. by rewrite Z.add_0_r.
  - simpl length. rewrite Nat2Z.inj_succ.
    replace (c + Z.succ (Z.of_nat (length times)))
      with ((c + 1) + Z.of_nat (length times)) by lia.
    unfold recordAttempts. simpl foldl. apply IH. by eapply tracked_next.
Qed.

End Counting.

(** X20. Attempts recorded for a new identifier within one window are
    counted one by one from the instant of the first: as long as the count
    is below [maxAttempts] the next check allows with
    [max(0, maxAttempts - count - 1)] remaining and the window of the first
    attempt as reset time; once it has reached [maxAttempts] the check
    denies with "Rate limit exceeded" and persists a block until
    [now + blockDurationMs]. *)
Theorem attempts_are_counted_up_to_the_limit (context : RateLimitContext)
    (identifier : string) (success : bool) (uid : option string)
    (t1 : Z) (times : list Z) (t : Z) (st : Store) :
  let key := keyGenerator (options context) identifier in
  let n := 1 + Z.of_nat (length times) in
  let out := checkRateLimitAt t identifier context None
               (recordAttempts context identifier success uid (t1 :: times) st) in
  isWhitelisted identifier (whitelist (options context)) = false ->
  isBlacklisted identifier (blacklist (options context)) = false ->
  notSkipped context success ->
  rateLimitEntries st !! key = None ->
  noRateTimerDue key t st ->
  Forall (fun ti => t1 <= ti <= t) times ->
  t1 <= t ->
  t < t1 + timerDelay (Z.max (windowMs (options context))
                             (blockDurationMs (options context))) ->
  t - t1 <= windowMs (options context) ->
  (n < maxAttempts (options context) ->
   out.1 = {| allowed := true;
              remaining := Z.max 0 (maxAttempts (options context) - n - 1);
              resetTime := t1 + windowMs (options context);
              retryAfter := None; reason := None |} /\
   attempts <$> rateLimitEntries out.2 !! key = Some n /\
   rateLimitEntries out.2 !! key ≫= blockedUntil = None) /\
  (maxAttempts (options context) <= n ->
   allowed out.1 = false /\
   reason out.1 = Some "Rate limit exceeded" /\
   retryAfter out.1 = Some (blockDurationMs (options context)) /\
   attempts <$> rateLimitEntries out.2 !! key = Some n /\
   rateLimitEntries out.2 !! key ≫= blockedUntil
   = Some (t + blockDurationMs (options context))).
Proof.
  intros key n out Hwl Hbl Hskip Hnone Hno Hall Hle Ht Hwin.
  pose proof (tracked_first context identifier success uid Hskip t1 t st
                Hle Ht Hnone Hno) as H1.
  pose proof (tracked_all context identifier success uid Hskip t1 t t1 1 times _
                Hall Ht H1) as Hn.
  change (recordAttempts context identifier success uid times
            (recordAttemptAt t1 identifier context success uid st))
    with (recordAttempts context identifier success uid (t1 :: times) st) in Hn.
  destruct Hn as (Hno' & entry & Hentry & Hc & Hf & Hb).
  set (stn := recordAttempts context identifier success uid (t1 :: times) st) in *.
  destruct (runTimers_rate_entry t t (keyGenerator (options context) identifier)
              stn (Z.le_refl t) Hno') as [Hentry' _].
  assert (out = checkRateLimitEntry t identifier context (runTimers t stn)) as Hout.
  { unfold out, checkRateLimitAt, checkRateLimit, checkIPSecurity.
    by rewrite Hwl, Hbl. }
  rewrite Hout. unfold checkRateLimitEntry, getRateLimitEntry. cbv zeta.
  rewrite Hentry', Hentry. cbv iota. rewrite Hb. simpl isBlocked. cbv iota.
  unfold isWindowExpired. rewrite bool_decide_false by lia.
  subst key n. split.
  - intros Hlt. rewrite bool_decide_false by lia. cbn [fst snd].
    rewrite Hentry', Hentry. simpl. rewrite Hc, Hf, Hb.
    unfold calculateRemainingAttempts. split_and!; [|f_equal; lia|done].
    f_equal; lia.
  - intros Hge. rewrite bool_decide_true by lia. cbn [fst snd].
    assert (forall st', rateLimitEntries
              (sendAlert t identifier (attempts entry) context st')
            = rateLimitEntries st') as Halert.
    { intros st'. unfold sendAlert. by destruct (_ || _). }
    rewrite Halert. simpl. rewrite lookup_insert_eq. simpl.
    split_and!; [done|done|done|f_equal; lia|done].
Qed.

(** ** Blocks *)


(** ** Unlocking *)

Lemma checkRateLimitEntry_decision now identifier context st st' :
  rateLimitEntries st !! keyGenerator (options context) identifier
  = rateLimitEntries st' !! keyGenerator (options context) identifier ->
  (checkRateLimitEntry now identifier context st).1
  = (checkRateLimitEntry now identifier context st').1.
Proof.
  intros Heq. unfold checkRateLimitEntry, getRateLimitEntry. cbv zeta.
  rewrite Heq. destruct (rateLimitEntries st' !! _) as [entry|]; [|done].
  destruct (isBlocked _ _); [done|].
  destruct (isWindowExpired _ _ _); [done|].
  by case_bool_decide.
Qed.

(** X22. After [unlockUser] the account plays no part in the next decision,
    which is the one the identifier alone gets; and after [unlockIP] and
    [unlockUser] the next check from an identifier on neither list is the
    decision of a first request and writes nothing. *)
Theorem unlock_restores_a_first_request (now : Z) (identifier : string)
    (context : RateLimitContext) (u : string) (st : Store) :
  (checkRateLimit now identifier context (Some u) (unlockUser u st)).1
  = (checkRateLimit now identifier context None st).1 /\
  (isWhitelisted identifier (whitelist (options context)) = false ->
   isBlacklisted identifier (blacklist (options context)) = false ->
   checkRateLimit now identifier context (Some u)
     (unlockIP identifier context (unlockUser u st))
   = ({| allowed := true; remaining := maxAttempts (options context) - 1;
         resetTime := now + windowMs (options context);
         retryAfter := None; reason := None |},
      unlockIP identifier context (unlockUser u st))).
Proof.
  split.
  - unfold checkRateLimit. destruct (checkIPSecurity _ _ _); [done|].
    destruct (truthy (Some u)) as [u'|] eqn:Hu;
      [|by apply checkRateLimitEntry_decision].
    apply truthy_Some_inv in Hu as [[= <-] _].
    unfold checkBruteForceProtection, getBruteForceEntry.
    destruct (negb _); [by apply checkRateLimitEntry_decision|].
    unfold unlockUser at 1. simpl bruteForceEntries. rewrite lookup_delete_eq.
    by apply checkRateLimitEntry_decision.
  - intros Hwl Hbl. unfold checkRateLimit, checkIPSecurity. rewrite Hwl, Hbl.
    assert (checkRateLimitEntry now identifier context
              (unlockIP identifier context (unlockUser u st))
            = ({| allowed := true; remaining := maxAttempts (options context) - 1;
                  resetTime := now + windowMs (options context);
                  retryAfter := None; reason := None |},
               unlockIP identifier context (unlockUser u st))) as Hfresh.
    { unfold checkRateLimitEntry, getRateLimitEntry. cbv zeta.
      unfold unlockIP at 1. simpl rateLimitEntries. by rewrite lookup_delete_eq. }
    destruct (truthy (Some u)) as [u'|] eqn:Hu; [|exact Hfresh].
    apply truthy_Some_inv in Hu as [[= <-] _].
    unfold checkBruteForceProtection, getBruteForceEntry.
    destruct (negb _); [exact Hfresh|].
    simpl bruteForceEntries. rewrite lookup_delete_eq. exact Hfresh.
Qed.

(** ** What an attempt touches *)

(** X23. Recording an attempt changes no rate-limit entry but the one of
    its own key and no brute-force entry but the one of its own account,
    never writes an alert, and, when it is a success and
    [skipSuccessfulRequests] is set, leaves the whole rate-limit track as
    it is. *)
Theorem recordAttempt_touches_only_its_own_entries (now : Z) (identifier : string)
    (context : RateLimitContext) (success : bool) (uid : option string)
    (st : Store) (key' u' : string) :
  let st' := recordAttempt now identifier context success uid st in
  (key' <> keyGenerator (options context) identifier ->
   rateLimitEntries st' !! key' = rateLimitEntries st !! key') /\
  (truthy uid <> Some u' ->
   bruteForceEntries st' !! u' = bruteForceEntries st !! u') /\
  alertLog st' = alertLog st /\
  (success = true -> skipSuccessfulRequests (options context) = true ->
   rateLimitEntries st' = rateLimitEntries st /\
   rateLimitTimers st' = rateLimitTimers st).
Proof.
  intros st'. subst st'.
  destruct (recordAttempt_rate now identifier context success uid st) as [He Htm].
  assert (bruteForceEntries (recordRateLimitAttempt now identifier context success st)
          = bruteForceEntries st /\
          alertLog (recordRateLimitAttempt now identifier context success st)
          = alertLog st) as [Hbf Hal].
  { unfold recordRateLimitAttempt.
    destruct (success && _); [done|]. by destruct (negb success && _). }
  split_and!.
  - intros Hne. rewrite He. unfold recordRateLimitAttempt. cbv zeta.
    destruct (success && _); [done|]. destruct (negb success && _); [done|].
    simpl. by rewrite lookup_insert_ne.
  - intros Hne. unfold recordAttempt. destruct (truthy uid) as [u|]; [|by rewrite Hbf].
    unfold recordBruteForceAttempt. cbv zeta.
    assert (u <> u') as Hu by congruence.
    destruct (negb _); [by rewrite Hbf|].
    destruct success.
    + destruct (resetCountOnSuccess _); [|by rewrite Hbf].
      simpl. rewrite lookup_delete_ne by done. by rewrite Hbf.
    + simpl. rewrite lookup_insert_ne by done. by rewrite Hbf.
  - unfold recordAttempt. destruct (truthy uid) as [u|]; [|done].
    destruct (recordBruteForceAttempt_rate now u context success
                (recordRateLimitAttempt now identifier context success st))
      as (_ & _ & ->). done.
  - intros -> Hskip. rewrite He, Htm. unfold recordRateLimitAttempt.
    rewrite Hskip. done.
Qed.

(** ** Alerts *)

(** X24. A check appends to the alert log only when it is the call that
    starts a block: alerts are enabled, the decision is a denial with
    "Rate limit exceeded", and the entry it found was not blocked and
    counted at least [threshold] and at least [maxAttempts] attempts. *)
Theorem alerts_only_when_a_block_starts (now : Z) (identifier : string)
    (context : RateLimitContext) (uid : option string) (st : Store) :
  let out := checkRateLimit now identifier context uid st in
  alertLog out.2 = alertLog st \/
  (alerts_enabled (alerts (options context)) = true /\
   allowed out.1 = false /\
   reason out.1 = Some "Rate limit exceeded" /\
   exists entry,
     rateLimitEntries st !! keyGenerator (options context) identifier = Some entry /\
     isBlocked now (blockedUntil entry) = false /\
     threshold (alerts (options context)) <= attempts entry /\
     maxAttempts (options context) <= attempts entry).
Proof.
  assert (forall st',
    rateLimitEntries st' = rateLimitEntries st -> alertLog st' = alertLog st ->
    let out := checkRateLimitEntry now identifier context st' in
    alertLog out.2 = alertLog st \/
    (alerts_enabled (alerts (options context)) = true /\
     allowed out.1 = false /\
     reason out.1 = Some "Rate limit exceeded" /\
     exists entry,
       rateLimitEntries st !! keyGenerator (options context) identifier
       = Some entry /\
       isBlocked now (blockedUntil entry) = false /\
       threshold (alerts (options context)) <= attempts entry /\
       maxAttempts (options context) <= attempts entry)) as Hentry.
  { intros st' He Ha. unfold checkRateLimitEntry, getRateLimitEntry. cbv zeta.
    rewrite He.
    destruct (rateLimitEntries st !! _) as [entry|] eqn:Hlook; [|by left].
    destruct (isBlocked _ _) eqn:Hblocked; [by left|].
    destruct (isWindowExpired _ _ _); [by left|].
    case_bool_decide as Hmax; [|by left].
    cbn [fst snd]. unfold sendAlert. cbv zeta.
    destruct (alerts_enabled _) eqn:Hon; [|by left].
    simpl negb. simpl orb. case_bool_decide as Hth; [by left|].
    right. split_and!; [done..|]. exists entry. split_and!; [done|done|lia|lia]. }
  unfold checkRateLimit. destruct (checkIPSecurity _ _ _); [by left|].
  destruct (truthy uid) as [u|]; [|by apply Hentry].
  unfold checkBruteForceProtection, getBruteForceEntry. cbv zeta.
  destruct (negb _); [by apply Hentry|].
  destruct (bruteForceEntries st !! u) as [entry|]; [|by apply Hentry].
  destruct (match lockedUntil entry with Some l => _ | None => _ end); [by left|].
  case_bool_decide; [by left|by apply Hentry].
Qed.

(** ** Expiry timers *)

Lemma fire_keeps_none {V} (now : Z) (key : string) (timers : list (Z * string))
    (m : gmap string V) :
  m !! key = None ->
  foldl (fun m t => if bool_decide (t.1 <= now) then delete t.2 m else m) m timers
  !! key = None.
Proof.
  revert m. induction timers as [|tm timers IH]; intros m Hnone; [done|].
  simpl. apply IH. case_bool_decide; [|done].
  destruct (decide (tm.2 = key)) as [->|Hne];
    [apply lookup_delete_eq|by rewrite lookup_delete_ne].
Qed.

Lemma fire_deletes {V} (now due : Z) (key : string) (timers : list (Z * string))
    (m : gmap string V) :
  (due, key) ∈ timers -> due <= now ->
  foldl (fun m t => if bool_decide (t.1 <= now) then delete t.2 m else m) m timers
  !! key = None.
Proof.
  intros Hin Hdue. revert m.
  induction timers as [|tm timers IH]; intros m; [by apply elem_of_nil in Hin|].
  apply elem_of_cons in Hin as [<-|Hin].
  - simpl. rewrite bool_decide_true by done. apply fire_keeps_none.
    apply lookup_delete_eq.
  - simpl. by apply IH.
Qed.


(** ** The lockout and the timer of the first failure *)

Lemma lockout_timers_grow_record now identifier context success uid st tm :
  tm ∈ bruteForceTimers st ->
  tm ∈ bruteForceTimers (recordAttempt now identifier context success uid st).
Proof.
  intros Hin. unfold recordAttempt.
  assert (bruteForceTimers (recordRateLimitAttempt now identifier context success st)
          = bruteForceTimers st) as Hsame.
  { unfold recordRateLimitAttempt.
    destruct (success && _); [done|]. by destruct (negb success && _). }
  destruct (truthy uid) as [u|]; [|by rewrite Hsame].
  unfold recordBruteForceAttempt. cbv zeta.
  destruct (negb _); [by rewrite Hsame|].
  destruct success.
  - destruct (resetCountOnSuccess _); simpl; by rewrite Hsame.
  - simpl. rewrite Hsame. apply elem_of_app. by left.
Qed.

Lemma lockout_timers_grow_check now identifier context uid st tm :
  tm ∈ bruteForceTimers st ->
  tm ∈ bruteForceTimers (checkRateLimit now identifier context uid st).2.
Proof.
  intros Hin.
  assert (forall st', tm ∈ bruteForceTimers st' ->
            tm ∈ bruteForceTimers (checkRateLimitEntry now identifier context st').2)
    as Hentry.
  { intros st' Hin'. unfold checkRateLimitEntry, getRateLimitEntry. cbv zeta.
    destruct (rateLimitEntries st' !! _) as [entry|]; [|done].
    destruct (isBlocked _ _); [done|].
    destruct (isWindowExpired _ _ _); [done|].
    case_bool_decide; [|done]. cbn [fst snd]. unfold sendAlert. cbv zeta.
    by destruct (_ || _). }
  unfold checkRateLimit. destruct (checkIPSecurity _ _ _); [done|].
  destruct (truthy uid) as [u|]; [|by apply Hentry].
  unfold checkBruteForceProtection, getBruteForceEntry. cbv zeta.
  destruct (negb _); [by apply Hentry|].
  destruct (bruteForceEntries st !! u) as [entry|]; [|by apply Hentry].
  destruct (match lockedUntil entry with Some l => _ | None => _ end); [done|].
  case_bool_decide; [|by apply Hentry].
  simpl. apply elem_of_app. by left.
Qed.

Lemma lockout_timer_pending now due uid st :
  (due, uid) ∈ bruteForceTimers st -> now < due ->
  (due, uid) ∈ bruteForceTimers (runTimers now st).
Proof.
  intros Hin Hlt. simpl. apply list_elem_of_filter. split; [simpl; lia|done].
Qed.

Lemma lockout_timer_survives_failures context uid due failures st :
  (due, uid) ∈ bruteForceTimers st ->
  Forall (fun a => a.1 < due) failures ->
  (due, uid) ∈ bruteForceTimers (recordFailures context uid failures st).
Proof.
  intros Hin Hall. revert st Hin.
  induction Hall as [|[now identifier] failures Hhd _ IH]; intros st Hin; [done|].
  unfold recordFailures. simpl foldl. apply IH.
  unfold recordAttemptAt. apply lockout_timers_grow_record.
  by apply lockout_timer_pending.
Qed.

(** X26. A lockout does not last until [lockedUntil]. The entry of the
    account is deleted when the timer set by its first failed attempt
    fires, [lockoutDurationMs] after that attempt: from then on the entry
    is gone and the brute-force check passes, although the lock persisted
    by the later check reads [now + lockoutDurationMs]. *)
Theorem lockout_ends_with_the_timer_of_the_first_failure
    (context : RateLimitContext) (uid : string) (t1 : Z) (id1 : string)
    (failures : list (Z * string)) (t : Z) (identifier : string) (st : Store)
    (t' : Z) :
  let ttl := timerDelay (lockoutDurationMs (bruteForce (options context))) in
  let locked := (checkRateLimitAt t identifier context (Some uid)
                   (recordFailures context uid ((t1, id1) :: failures) st)).2 in
  enabled (bruteForce (options context)) = true ->
  uid <> "" ->
  isWhitelisted identifier (whitelist (options context)) = false ->
  isBlacklisted identifier (blacklist (options context)) = false ->
  bruteForceEntries st !! uid = None ->
  noLockoutTimerDue uid t st ->
  Forall (fun a => t1 <= a.1 <= t) failures ->
  t1 <= t ->
  t < t1 + ttl ->
  maxFailedAttempts (bruteForce (options context))
  <= 1 + Z.of_nat (length failures) ->
  t1 + ttl <= t' ->
  bruteForceEntries locked !! uid ≫= lockedUntil
  = Some (t + lockoutDurationMs (bruteForce (options context))) /\
  bruteForceEntries (runTimers t' locked) !! uid = None /\
  (checkBruteForceProtection t' uid context (runTimers t' locked)).1 = None.
Proof.
  intros ttl locked Hon Huid Hwl Hbl Hnone Hno Hall Hle Ht Hmax Hdue.
  assert (counted uid t 0 st) as H0.
  { unfold counted, failedAttemptsOf. rewrite Hnone. split_and!; [done..|lia]. }
  assert (Forall (fun a : Z * string => t1 <= a.1 <= t) ((t1, id1) :: failures))
    as Hall' by (constructor; [simpl; lia|done]).
  pose proof (counted_failures context uid Huid Hon t1 t _ 0 st Hall' Ht
                (Z.le_refl 0) H0) as Hn.
  assert (0 < 0 + Z.of_nat (length ((t1, id1) :: failures))) as Hpos
    by (simpl length; lia).
  assert (maxFailedAttempts (bruteForce (options context))
          <= 0 + Z.of_nat (length ((t1, id1) :: failures))) as Hover
    by (simpl length; lia).
  destruct (check_locks_counted context uid Huid Hon t _ identifier _ Hwl Hbl
              Hover Hpos Hn) as (_ & _ & _ & Hlock).
  assert ((t1 + ttl, uid) ∈ bruteForceTimers locked) as Hpending.
  { unfold locked, checkRateLimitAt. apply lockout_timers_grow_check.
    apply lockout_timer_pending; [|lia].
    unfold recordFailures. simpl foldl.
    apply lockout_timer_survives_failures.
    - unfold recordAttemptAt, recordAttempt.
      rewrite (truthy_Some_intro uid Huid).
      unfold recordBruteForceAttempt. rewrite Hon. simpl.
      apply elem_of_app. right. by apply list_elem_of_singleton.
    - eapply Forall_impl; [exact Hall|]. simpl. intros a Ha. lia. }
  assert (bruteForceEntries (runTimers t' locked) !! uid = None) as Hgone.
  { simpl. by apply (fire_deletes t' (t1 + ttl)). }
  split_and!; [exact Hlock|exact Hgone|].
  unfold checkBruteForceProtection, getBruteForceEntry. cbv zeta.
  rewrite Hon, Hgone. done.
Qed.

(** ** cleanupExpiredEntries *)

(** X27. [cleanupExpiredEntries] removes exactly the entries whose block or
    lock lies in the past and keeps every other entry unchanged, so that
    the next check of a removed identifier is the decision of a first
    request even if its window is still running. *)
Theorem cleanup_forgets_ended_blocks (now now' : Z) (identifier : string)
    (context : RateLimitContext) (st : Store) :
  let key := keyGenerator (options context) identifier in
  (forall k e, rateLimitEntries (cleanupExpiredEntries now st) !! k = Some e <->
               rateLimitEntries st !! k = Some e /\ ~ isPast now (blockedUntil e)) /\
  (forall u e, bruteForceEntries (cleanupExpiredEntries now st) !! u = Some e <->
               bruteForceEntries st !! u = Some e /\ ~ isPast now (lockedUntil e)) /\
  (forall e b,
     rateLimitEntries st !! key = Some e -> blockedUntil e = Some b -> b < now ->
     isWhitelisted identifier (whitelist (options context)) = false ->
     isBlacklisted identifier (blacklist (options context)) = false ->
     checkRateLimit now' identifier context None (cleanupExpiredEntries now st)
     = ({| allowed := true; remaining := maxAttempts (options context) - 1;
           resetTime := now' + windowMs (options context);
           retryAfter := None; reason := None |},
        cleanupExpiredEntries now st)).
Proof.
  intros key. subst key. split_and!.
  - intros k e. simpl. rewrite map_lookup_filter_Some. simpl. tauto.
  - intros u e. simpl. rewrite map_lookup_filter_Some. simpl. tauto.
  - intros e b Hentry Hb Hpast Hwl Hbl.
    unfold checkRateLimit, checkIPSecurity. rewrite Hwl, Hbl. simpl truthy. cbv iota.
    unfold checkRateLimitEntry, getRateLimitEntry. cbv zeta.
    assert (rateLimitEntries (cleanupExpiredEntries now st)
            !! keyGenerator (options context) identifier = None) as ->.
    { simpl. apply map_lookup_filter_None. right. intros e' He' Hkeep.
      apply Hkeep. simpl. assert (e' = e) as -> by congruence.
      rewrite Hb. simpl. done. }
    done.
Qed.

End RateLimitMore.

Module RateLimitMoreRunsFacts.
Import RateLimit RateLimitRuns RateLimitScenarios RateLimitMoreRuns RateLimitMore.

Lemma listed_identifiers_are_decided_first_witness :
  checkRateLimit 10 "10.0.0.1" whitelistContext (Some "u1") emptyStore
  = ({| allowed := true; remaining := maxAttempts (options whitelistContext);
        resetTime := 10 + windowMs (options whitelistContext);
        retryAfter := None; reason := None |}, emptyStore).
Proof.
  apply (proj1 (listed_identifiers_are_decided_first 10 "10.0.0.1"
                  whitelistContext (Some "u1") emptyStore)).
  vm_compute. reflexivity.
Defined.

Lemma attempts_are_counted_up_to_the_limit_witness :
  let key := keyGenerator (options windowContext) address in
  let out := checkRateLimitAt 300 address windowContext None
               (recordAttempts windowContext address false None [0; 100; 200]
                               emptyStore) in
  allowed out.1 = false /\
  reason out.1 = Some "Rate limit exceeded" /\
  retryAfter out.1 = Some (blockDurationMs (options windowContext)) /\
  attempts <$> rateLimitEntries out.2 !! key
  = Some (1 + Z.of_nat (length [100; 200])) /\
  rateLimitEntries out.2 !! key ≫= blockedUntil
  = Some (300 + blockDurationMs (options windowContext)).
Proof.
  pose proof (attempts_are_counted_up_to_the_limit windowContext address false
                None 0 [100; 200] 300 emptyStore) as Hcount.
  cbv zeta in Hcount.
  apply Hcount.
  - vm_compute. reflexivity.
  - vm_compute. reflexivity.
  - split; reflexivity.
  - apply lookup_empty.
  - constructor.
  - repeat constructor; simpl; lia.
  - lia.
  - vm_compute. reflexivity.
  - vm_compute. discriminate.
  - vm_compute. discriminate.
Defined.


Lemma unlock_restores_a_first_request_witness :
  let st := recordFailures lockoutContext "u1" tenFailures emptyStore in
  checkRateLimit 10 "10.0.0.1" lockoutContext (Some "u1")
    (unlockIP "10.0.0.1" lockoutContext (unlockUser "u1" st))
  = ({| allowed := true; remaining := maxAttempts (options lockoutContext) - 1;
        resetTime := 10 + windowMs (options lockoutContext);
        retryAfter := None; reason := None |},
     unlockIP "10.0.0.1" lockoutContext (unlockUser "u1" st)).
Proof.
  intros st.
  apply (proj2 (unlock_restores_a_first_request 10 "10.0.0.1" lockoutContext
                  "u1" st)).
  - vm_compute. reflexivity.
  - vm_compute. reflexivity.
Defined.


Lemma lockout_ends_with_the_timer_of_the_first_failure_witness :
  let locked := (checkRateLimitAt 10 "10.0.0.1" lockoutContext (Some "u1")
                   (recordFailures lockoutContext "u1"
                      ((0, "10.0.0.1") :: nineFailures) emptyStore)).2 in
  bruteForceEntries locked !! "u1" ≫= lockedUntil
  = Some (10 + lockoutDurationMs (bruteForce (options lockoutContext))) /\
  bruteForceEntries (runTimers 3600000 locked) !! "u1" = None /\
  (checkBruteForceProtection 3600000 "u1" lockoutContext
     (runTimers 3600000 locked)).1 = None.
Proof.
  apply (lockout_ends_with_the_timer_of_the_first_failure lockoutContext "u1" 0
           "10.0.0.1" nineFailures 10 "10.0.0.1" emptyStore 3600000).
  - reflexivity.
  - discriminate.
  - vm_compute. reflexivity.
  - vm_compute. reflexivity.
  - apply lookup_empty.
  - constructor.
  - unfold nineFailures. repeat constructor; simpl; lia.
  - lia.
  - vm_compute. reflexivity.
  - vm_compute. discriminate.
  - vm_compute. discriminate.
Defined.

Lemma cleanup_forgets_ended_blocks_witness :
  checkRateLimit 6000 address windowContext None
                 (cleanupExpiredEntries 6000 blockedStore)
  = ({| allowed := true; remaining := maxAttempts (options windowContext) - 1;
        resetTime := 6000 + windowMs (options windowContext);
        retryAfter := None; reason := None |},
     cleanupExpiredEntries 6000 blockedStore).
Proof.
  apply (proj2 (proj2 (cleanup_forgets_ended_blocks 6000 6000 address
                         windowContext blockedStore)) blockedEntry 5300).
  - vm_compute. reflexivity.
  - reflexivity.
  - lia.
  - vm_compute. reflexivity.
  - vm_compute. reflexivity.
Defined.

End RateLimitMoreRunsFacts.
